(** * diy-git: the object store, the tree builder and the commit builder

    A shallow embedding of [main.go].  Go strings and byte slices are both
    byte sequences and are modelled by [string]; Go [int] and [int64] values
    by [Z]; [os.FileMode] by [N] with its bit operations.

    The process is modelled by an [outcome]: a function returns normally,
    leaves through [os.Exit(1)] after a diagnostic, or aborts with a Go
    run-time panic.  The file system is split in two parts that the code
    never mixes: the working tree that [WriteTree] walks (it skips every
    entry named [.git]), and the [.git] directory, a finite map from the
    path strings the code builds to files and directories.  Where the
    code passes the path of a file or directory of the working tree, the
    model passes the node that the path names.

    [crypto/sha1] and [compress/zlib] belong to the Go standard library
    and are taken as parameters of the development. *)

From Stdlib Require Import String Ascii ZArith NArith List Lia Bool.
From Stdlib Require Import Decimal DecimalString DecimalPos DecimalZ.
From Stdlib Require Import Permutation Sorted.
From stdpp Require Import base gmap strings list.
From Equations Require Import Equations.

Local Open Scope Z_scope.

#[local] Arguments String.append : simpl nomatch.

(** ** Byte strings *)

Module GoString.

Definition NUL : ascii := Ascii.ascii_of_nat 0.
Definition LF : ascii := Ascii.ascii_of_nat 10.
Definition SP : ascii := Ascii.ascii_of_nat 32.

(** [len(s)] *)
Definition len (s : string) : Z := Z.of_nat (String.length s).

Fixpoint take (n : nat) (s : string) : string :=
  match n, s with
  | S n', String c s' => String c (take n' s')
  | _, _ => EmptyString
  end.

Fixpoint drop (n : nat) (s : string) : string :=
  match n, s with
  | S n', String _ s' => drop n' s'
  | _, _ => s
  end.

(** Occurrence of a byte in a string. *)
Fixpoint has (c : ascii) (s : string) : bool :=
  match s with
  | EmptyString => false
  | String d s' => Ascii.eqb c d || has c s'
  end.

(** Whether [s] ends with [suf], as [strings.HasSuffix] tells. *)
Definition HasSuffix (s suf : string) : bool :=
  String.eqb (drop (String.length s - String.length suf)%nat s) suf.

(** [bytes.Cut(s, sep)]: the text before and after the first instance
    of [sep], and whether [sep] occurs; [(s, nil, false)] when it does
    not. *)
Fixpoint Cut (s sep : string) : string * string * bool :=
  if String.prefix sep s then (EmptyString, drop (String.length sep) s, true)
  else match s with
       | EmptyString => (EmptyString, EmptyString, false)
       | String c s' =>
           let '(before, after, found) := Cut s' sep in
           (String c before, after, found)
       end.

End GoString.
Import GoString.

(** ** Outcomes of a run *)

Inductive outcome (A : Type) : Type :=
| Done (a : A)                (* normal return *)
| Exit (diagnostic : string)  (* message on stderr, then [os.Exit(1)] *)
| Panic (cause : string).     (* Go run-time panic *)
Arguments Done {A} a.
Arguments Exit {A} diagnostic.
Arguments Panic {A} cause.

#[global] Instance outcome_ret : MRet outcome := fun A a => Done a.
#[global] Instance outcome_bind : MBind outcome := fun A B f m =>
  match m with
  | Done a => f a
  | Exit d => Exit d
  | Panic c => Panic c
  end.

(** [s[lo:hi]] with Go's bounds check [0 <= lo <= hi <= len(s)]. *)
Definition slice (s : string) (lo hi : Z) : outcome string :=
  if (0 <=? lo) && (lo <=? hi) && (hi <=? len s)
  then Done (take (Z.to_nat (hi - lo)) (drop (Z.to_nat lo) s))
  else Panic "slice bounds out of range".

(** [s[:hi]] and [s[lo:]] *)
Definition slice_to (s : string) (hi : Z) : outcome string := slice s 0 hi.
Definition slice_from (s : string) (lo : Z) : outcome string := slice s lo (len s).

(** ** Formatting *)

(** [strconv.FormatInt(i, 10)] and [fmt.Sprint(i)] for an integer: an
    optional minus sign and decimal digits. *)
Definition FormatInt (i : Z) : string := NilZero.string_of_int (Z.to_int i).

Definition hexdigit (n : N) : ascii :=
  match String.get (N.to_nat n) "0123456789abcdef" with
  | Some c => c
  | None => "0"%char
  end.

(** [hex.EncodeToString] *)
Fixpoint EncodeToString (src : string) : string :=
  match src with
  | EmptyString => EmptyString
  | String b src' =>
      String (hexdigit (N.shiftr (N_of_ascii b) 4))
        (String (hexdigit (N.land (N_of_ascii b) 15)) (EncodeToString src'))
  end.

(** ** The [.git] directory *)

Inductive gnode : Type :=
| GFile (data : string)
| GDir.

(** Keys are the path strings the program builds ([.git/HEAD],
    [.git/objects/ab/cdef...]). *)
Abbreviation gitdir := (gmap string gnode).

(** [os.MkdirAll], given the directory and its ancestors from the
    outermost on: existing directories are kept, missing ones are
    created, and a regular file in the way is an error. *)
Fixpoint MkdirAll (chain : list string) (g : gitdir) : option gitdir :=
  match chain with
  | [] => Some g
  | p :: ps =>
      match g !! p with
      | Some (GFile _) => None
      | Some GDir => MkdirAll ps g
      | None => MkdirAll ps (<[p := GDir]> g)
      end
  end.

(** [os.ReadFile]: the bytes read and whether the read failed; a missing
    path and a directory both give no bytes and an error. *)
Definition ReadFile (path : string) (g : gitdir) : string * bool :=
  match g !! path with
  | Some (GFile data) => (data, false)
  | Some GDir => (EmptyString, true)
  | None => (EmptyString, true)
  end.

(** [os.WriteFile]. *)
Definition WriteFile (path data : string) (g : gitdir) : option gitdir :=
  match g !! path with
  | Some GDir => None
  | _ => Some (<[path := GFile data]> g)
  end.

(** ** The working tree *)

(** A directory lists its entries in the order the file system
    enumerates them.  A symbolic link carries what following it
    reaches, if anything. *)
#[warnings="-register-all"]
Inductive node : Type :=
| File (perm : N) (data : string)
| Dir (perm : N) (files : list (string * node))
| Symlink (target : option node).

Definition ModeDir : N := N.shiftl 1 31.
Definition ModeSymlink : N := N.shiftl 1 27.
Definition ModePerm : N := 511.  (* 0o777 *)

Record FileInfo : Type := { fi_Name : string; fi_Mode : N }.

(** [FileMode.Perm] and [FileInfo.IsDir] *)
Definition Perm (m : N) : N := N.land m ModePerm.
Definition fi_IsDir (fi : FileInfo) : bool := negb (N.land (fi_Mode fi) ModeDir =? 0)%N.

(** [DirEntry.Info]: the [lstat] of an entry, which does not follow links. *)
Definition Info (name : string) (n : node) : FileInfo :=
  {| fi_Name := name;
     fi_Mode := match n with
                | File perm _ => Perm perm
                | Dir perm _ => N.lor ModeDir (Perm perm)
                | Symlink _ => N.lor ModeSymlink ModePerm
                end |}.

(** [os.Open] follows symbolic links. *)
Fixpoint os_Open (n : node) : option node :=
  match n with
  | Symlink None => None
  | Symlink (Some t) => os_Open t
  | _ => Some n
  end.

(** ** Stand-ins for the library functions

    Used to run the model on concrete inputs: a 20-byte checksum in place
    of SHA-1 and the identity in place of zlib. *)
Module Sample.

Definition pad20 (s : string) : string :=
  take 20 (s +:+ "00000000000000000000").

Fixpoint checksum (s : string) (acc : N) : N :=
  match s with
  | EmptyString => acc
  | String c s' => checksum s' ((acc * 31 + N_of_ascii c) mod 1000000007)%N
  end.

Definition digest (s : string) : string :=
  pad20 (NilZero.string_of_uint (N.to_uint (checksum s 7))).

Definition deflate (s : string) : string := s.
Definition inflate (s : string) : option (string * bool) := Some (s, true).

End Sample.

(** ** The program *)

Definition NULL_SEP : string := String NUL EmptyString.
Definition SPACE : string := String SP EmptyString.
Definition NEWLINE : string := String LF EmptyString.

(** [TreeFile], the struct of [main.go]. *)
Record TreeFile : Type := { Name : string; Mode : Z; IsDir : bool }.

(** The mode chosen for a directory entry in the first loop of
    [WriteTree]. *)
Definition entryMode (fileinfo : FileInfo) : Z :=
  if negb (N.land (fi_Mode fileinfo) ModeSymlink =? 0)%N then
    120000
  else if negb (Perm (fi_Mode fileinfo) mod 2 =? 0)%N && negb (fi_IsDir fileinfo) then
    100755
  else if fi_IsDir fileinfo then
    40000
  else
    100644.

(** [sort.Slice]. The library's sort is not stable, but it is only run on
    the entries of one directory, whose names are pairwise distinct, and
    there every sort returns the same list ([sorted_perm_unique]). *)
Fixpoint sort_insert {A} (less : A -> A -> bool) (x : A) (l : list A) : list A :=
  match l with
  | [] => [x]
  | y :: l' => if less y x then y :: sort_insert less x l' else x :: l
  end.

Fixpoint sort_Slice {A} (less : A -> A -> bool) (l : list A) : list A :=
  match l with
  | [] => []
  | x :: l' => sort_insert less x (sort_Slice less l')
  end.

(** The loop of [CatFile] that reads bytes up to and including the first
    NUL: what is left of the stream, or nothing if the stream ends first. *)
Fixpoint skipHeader (stream : string) : option string :=
  match stream with
  | EmptyString => None
  | String currentByte rest =>
      if Ascii.eqb currentByte NUL then Some rest else skipHeader rest
  end.

(** [InitCmd]: errors are reported and the command goes on. *)
Definition InitCmd (g : gitdir) : gitdir :=
  let mkdir chain g := default g (MkdirAll chain g) in
  let g := mkdir [".git"] g in
  let g := mkdir [".git"; ".git/objects"] g in
  let g := mkdir [".git"; ".git/refs"] g in
  let headFileContents := "ref: refs/heads/master" +:+ NEWLINE in
  default g (WriteFile ".git/HEAD" headFileContents g).

(** Facts about slicing that the loops rely on. *)

Lemma drop_length (n : nat) (s : string) :
  String.length (drop n s) = (String.length s - n)%nat.
Proof.
  revert s; induction n as [|n IH]; intros [|c s]; simpl; auto.
Qed.

Lemma take_length (n : nat) (s : string) :
  String.length (take n s) = Nat.min n (String.length s).
Proof.
  revert s; induction n as [|n IH]; intros [|c s]; simpl; auto.
Qed.

Lemma slice_from_shorter (s s' : string) (lo : Z) :
  0 < lo -> slice_from s lo = Done s' -> (String.length s' < String.length s)%nat.
Proof.
  unfold slice_from, slice, len; intros Hlo H.
  destruct (_ && _) eqn:E; [|discriminate].
  injection H as <-.
  apply andb_prop in E as [E _]; apply andb_prop in E as [_ E].
  apply Z.leb_le in E.
  rewrite take_length, drop_length. lia.
Qed.

Lemma Cut_after_length (s sep : string) :
  (String.length (Cut s sep).1.2 <= String.length s)%nat.
Proof.
  induction s as [|c s IH].
  - cbn [Cut]. destruct (String.prefix sep ""); cbn [fst snd].
    + rewrite drop_length; lia.
    + simpl; lia.
  - cbn [Cut]. destruct (String.prefix sep (String c s)); cbn [fst snd].
    + rewrite drop_length; lia.
    + destruct (Cut s sep) as [[b a] f]; simpl in *; lia.
Qed.

Section Program.

(** [sha1.New().Write(buf); Sum(nil)] *)
Variable sha1_Sum : string -> string.

(** What a [zlib.Writer] leaves in the file once closed. *)
Variable zlib_Write : string -> string.

(** [zlib.NewReader] on the bytes of a file: [None] when it rejects the
    stream's header; otherwise the bytes the reader delivers, and whether
    it then ends with [io.EOF] ([true]) or with an error. *)
Variable zlib_NewReader : string -> option (string * bool).

Definition GetSha (buf : string) : string := sha1_Sum buf.

(** A function that writes objects and returns a digest. *)
Definition writer : Type := gitdir -> outcome (string * gitdir).

(** Will consume [contents] to write to an object file [name]. *)
Definition WriteObject (name contents : string) (g : gitdir) : outcome gitdir :=
  prefix ← slice_to name 2;
  let objectPath := ".git/objects/" +:+ prefix in
  match MkdirAll [".git"; ".git/objects"; objectPath] g with
  | None => Exit "Error creating object file"
  | Some g =>
      rest ← slice_from name 2;
      let objectPath := objectPath +:+ "/" +:+ rest in
      match g !! objectPath with
      | Some _ => Done g (* object already exists *)
      | None => Done (<[objectPath := GFile (zlib_Write contents)]> g)
      end
  end.

(** Create a blob object for the file a path names ([None]: the path
    names nothing), return its SHA1. *)
Definition WriteBlob (file : option node) : writer := fun g =>
  match file ≫= os_Open with
  | None => Exit "Error opening file"
  | Some (Dir _ _) => Exit "Error copying file"
  | Some (Symlink _) => Exit "Error opening file"
  | Some (File _ data) =>
      let objectSize := FormatInt (len data) in
      let bbuf := "blob " +:+ objectSize +:+ NULL_SEP +:+ data in
      let hashSum := GetSha bbuf in
      g ← WriteObject (EncodeToString hashSum) bbuf g;
      Done (hashSum, g)
  end.

(** [CatFile]: the bytes copied to [output] ([false] stands for a nil
    writer). *)
Definition CatFile (hashSum : string) (output : bool) (g : gitdir) : outcome string :=
  shaPrefix ← slice_to hashSum 2;
  shaAfterPrefix ← slice_from hashSum 2;
  let filename := ".git/objects/" +:+ shaPrefix +:+ "/" +:+ shaAfterPrefix in
  match g !! filename with
  | None => Exit "Could not find Git object"
  | Some file =>
      match (match file with GFile data => zlib_NewReader data | GDir => None end) with
      | None =>
          (* [defer reader.Close()] stands before the error check, and
             [reader] is a nil interface here *)
          Panic "invalid memory address or nil pointer dereference"
      | Some (stream, _) =>
          match skipHeader stream with
          | None => Exit "Error reading Git object"
          | Some rest => Done (if output then rest else EmptyString)
          end
      end
  end.

(** Keeps the equation of a match for the termination proof below. *)
Definition inspect {A} (a : A) : {b : A | a = b} := exist _ a eq_refl.

(** One turn of the loop of [LSTreeCmd] on a body that is not empty:
    the name printed, and the body left by [body = body[20:]]. *)
Definition lsStep (body : string) : string * outcome string :=
  let '(info, body, _) := Cut body NULL_SEP in
  let '(_, fileName, _) := Cut info SPACE in
  (fileName, slice_from body 20).

Lemma lsStep_shorter (body fileName body' : string) :
  lsStep body = (fileName, Done body') ->
  (String.length body' < String.length body)%nat.
Proof.
  unfold lsStep. intros H.
  pose proof (Cut_after_length body NULL_SEP) as Hle.
  destruct (Cut body NULL_SEP) as [[info rest] found].
  destruct (Cut info SPACE) as [[mode name] found'].
  injection H as _ H.
  apply slice_from_shorter in H; simpl in *; lia.
Qed.

(** The loop of [LSTreeCmd] over the tree's body: the names printed, one
    per line, and how the loop ends. *)
#[local] Obligation Tactic := idtac.
Equations? lsLoop (body : string) : list string * outcome unit
  by wf (String.length body) lt :=
lsLoop body with inspect (String.eqb body "") := {
  | exist _ true _ := ([], Done tt);
  | exist _ false _ with inspect (lsStep body) := {
      | exist _ (fileName, Done body') _ :=
          let '(names, ending) := lsLoop body' in (fileName :: names, ending);
      | exist _ (fileName, Exit d) _ := ([fileName], Exit d);
      | exist _ (fileName, Panic c) _ := ([fileName], Panic c) } }.
Proof.
  eapply lsStep_shorter; eauto.
Qed.

Definition LSTreeCmd (sha : string) (g : gitdir) : list string * outcome unit :=
  match slice_to sha 2, slice_from sha 2 with
  | Done shaPrefix, Done shaAfterPrefix =>
      let filename := ".git/objects/" +:+ shaPrefix +:+ "/" +:+ shaAfterPrefix in
      match g !! filename with
      | None => ([], Exit "Could not find Git object")
      | Some file =>
          match (match file with GFile data => zlib_NewReader data | GDir => None end) with
          | None => ([], Exit "Error decompressing Git object")
          | Some (buf, _) => lsLoop (Cut buf NULL_SEP).1.2
          end
      end
  | _, _ => ([], Panic "slice bounds out of range")
  end.

(** What [WriteTree(path)] and [WriteBlob(path)] do for the path
    [dir + "/" + line.Name] of an entry. *)
Record pathOps : Type := { asTree : writer; asBlob : writer }.

(** The first loop of [WriteTree]: one line per entry, [.git] left out. *)
Definition collectLines (WriteTree : node -> writer) (files : list (string * node))
  : list (TreeFile * pathOps) :=
  flat_map (fun file =>
    let fileinfo := Info file.1 file.2 in
    if String.eqb (fi_Name fileinfo) ".git" then []
    else [({| Name := fi_Name fileinfo;
              Mode := entryMode fileinfo;
              IsDir := fi_IsDir fileinfo |},
           {| asTree := WriteTree file.2; asBlob := WriteBlob (Some file.2) |})])
    files.

Definition lessName (a b : TreeFile * pathOps) : bool := String.ltb (Name a.1) (Name b.1).

(** The second loop of [WriteTree]: the body buffer after the lines. *)
Fixpoint writeLines (lines : list (TreeFile * pathOps)) (body : string) (g : gitdir)
  : outcome (string * gitdir) :=
  match lines with
  | [] => Done (body, g)
  | (line, path) :: lines' =>
      let body := body +:+ FormatInt (Mode line) +:+ SPACE +:+ Name line +:+ NULL_SEP in
      '(hash, g) ← (if IsDir line then asTree path g else asBlob path g);
      writeLines lines' (body +:+ hash) g
  end.

(** Header, digest and store: the end of [WriteTree]. *)
Definition storeTree (body : string) (g : gitdir) : outcome (string * gitdir) :=
  let headerAndBody := "tree " +:+ FormatInt (len body) +:+ NULL_SEP +:+ body in
  let hash := GetSha headerAndBody in
  g ← WriteObject (EncodeToString hash) headerAndBody g;
  Done (hash, g).

(** Create a tree object for the directory [dir], return its SHA1. *)
Fixpoint WriteTree (dir : node) : writer := fun g =>
  match dir with
  | Dir _ files =>
      let lines := sort_Slice lessName (collectLines WriteTree files) in
      '(body, g) ← writeLines lines EmptyString g;
      storeTree body g
  | _ => Exit "Error reading current working directory"
  end.

Definition timezoneOffset : string := "+0100".
Definition author : string := "Florian Laporte".
Definition authorMail : string := "<florianl@florianl.dev>".

(** The body buffer of [CommitTree]; [now] is what [time.Now().Unix()]
    returns when the function reads the clock. *)
Definition commitBody (now : Z) (treeSHA parentCommitSHA msg : string) : string :=
  let timestamp := FormatInt now in
  ("tree " +:+ treeSHA +:+ NEWLINE +:+ "parent " +:+ parentCommitSHA +:+ NEWLINE)
  +:+ ("author " +:+ author +:+ " " +:+ authorMail +:+ " " +:+ timestamp
         +:+ " " +:+ timezoneOffset +:+ NEWLINE)
  +:+ ("committer " +:+ author +:+ " " +:+ authorMail +:+ " " +:+ timestamp
         +:+ " " +:+ timezoneOffset +:+ NEWLINE +:+ NEWLINE)
  +:+ msg
  +:+ NEWLINE.

Definition CommitTree (now : Z) (treeSHA parentCommitSHA msg : string) : writer := fun g =>
  let body := commitBody now treeSHA parentCommitSHA msg in
  let headerAndBody := "commit " +:+ FormatInt (len body) +:+ NULL_SEP +:+ body in
  let hash := GetSha headerAndBody in
  g ← WriteObject (EncodeToString hash) headerAndBody g;
  Done (hash, g).

(** Commit the current working directory [cwd], return the commit SHA-1. *)
Definition Commit (now : Z) (cwd : node) (msg : string) : writer := fun g =>
  '(tree, g) ← WriteTree cwd g;
  let treeSHA := EncodeToString tree in
  let '(headFile, err) := ReadFile ".git/HEAD" g in
  if err then Exit "Error reading HEAD file" else
  ref ← slice headFile 5 (len headFile - 1);
  let headRefPath := ".git/" +:+ ref in
  let '(HEADsha, err) := ReadFile headRefPath g in
  HEADsha ← slice_to HEADsha (len HEADsha - 1);
  if err then Exit "Error resolving HEAD ref" else
  CommitTree now treeSHA HEADsha msg g.

(** * Properties *)

(** SHA-1 digests are [sha1.Size] = 20 bytes long. *)
Hypothesis sha1_Size : forall buf, String.length (sha1_Sum buf) = 20%nat.

(** ** Byte strings *)

Lemma app_assoc_s (a b c : string) : (a +:+ b) +:+ c = a +:+ (b +:+ c).
Proof. induction a as [|x a IH]; simpl; [reflexivity | now rewrite IH]. Qed.

Lemma app_nil_r_s (a : string) : a +:+ "" = a.
Proof. induction a as [|x a IH]; simpl; [reflexivity | now rewrite IH]. Qed.

Lemma length_app_s (a b : string) :
  String.length (a +:+ b) = (String.length a + String.length b)%nat.
Proof. induction a as [|x a IH]; simpl; [reflexivity | now rewrite IH]. Qed.

Lemma has_app (c : ascii) (a b : string) : has c (a +:+ b) = has c a || has c b.
Proof.
  induction a as [|x a IH]; simpl; [reflexivity|].
  rewrite IH. now rewrite orb_assoc.
Qed.

Lemma drop_app_length (a b : string) : drop (String.length a) (a +:+ b) = b.
Proof. induction a as [|x a IH]; simpl; [reflexivity | assumption]. Qed.

Lemma take_all (n : nat) (s : string) : (String.length s <= n)%nat -> take n s = s.
Proof.
  revert s; induction n as [|n IH]; intros [|c s]; simpl; intros H;
    try reflexivity; try lia.
  rewrite IH by lia; reflexivity.
Qed.

Lemma len_nonneg (s : string) : 0 <= len s.
Proof. unfold len; lia. Qed.

Lemma slice_to_ok (s : string) (hi : Z) :
  0 <= hi <= len s -> slice_to s hi = Done (take (Z.to_nat hi) s).
Proof.
  unfold slice_to, slice; intros H.
  replace ((0 <=? 0) && (0 <=? hi) && (hi <=? len s)) with true
    by (symmetry; rewrite !andb_true_iff, !Z.leb_le; lia).
  now rewrite Z.sub_0_r.
Qed.

Lemma slice_from_ok (s : string) (lo : Z) :
  0 <= lo <= len s -> slice_from s lo = Done (drop (Z.to_nat lo) s).
Proof.
  unfold slice_from, slice; intros H.
  replace ((0 <=? lo) && (lo <=? len s) && (len s <=? len s)) with true
    by (symmetry; rewrite !andb_true_iff, !Z.leb_le; lia).
  rewrite take_all; [reflexivity|].
  rewrite drop_length. unfold len in *. lia.
Qed.

Lemma slice_to_short (s : string) (hi : Z) :
  len s < hi -> slice_to s hi = Panic "slice bounds out of range".
Proof.
  unfold slice_to, slice; intros H.
  replace (hi <=? len s) with false by (symmetry; apply Z.leb_gt; lia).
  now rewrite andb_false_r.
Qed.

(** The header loop of [CatFile] stops right after the first NUL. *)
Lemma skipHeader_app (header rest : string) :
  has NUL header = false ->
  skipHeader (header +:+ NULL_SEP +:+ rest) = Some rest.
Proof.
  induction header as [|c h IH]; [reflexivity|].
  cbn [has]. intros H. apply orb_false_elim in H as [Hc Hh].
  change (String c h +:+ NULL_SEP +:+ rest) with (String c (h +:+ NULL_SEP +:+ rest)).
  cbn [skipHeader]. rewrite Ascii.eqb_sym, Hc. auto.
Qed.

Lemma skipHeader_none (stream : string) :
  has NUL stream = false -> skipHeader stream = None.
Proof.
  induction stream as [|c s IH]; [reflexivity|].
  cbn [has skipHeader]. intros H. apply orb_false_elim in H as [Hc Hs].
  rewrite Ascii.eqb_sym, Hc. auto.
Qed.

(** ** Decimal and hexadecimal text *)

Definition isDigit (c : ascii) : bool :=
  (48 <=? N_of_ascii c)%N && (N_of_ascii c <=? 57)%N.

Fixpoint allDigits (s : string) : bool :=
  match s with
  | EmptyString => true
  | String c s' => isDigit c && allDigits s'
  end.

Lemma allDigits_uint (d : Decimal.uint) : allDigits (NilEmpty.string_of_uint d) = true.
Proof. induction d; simpl; auto. Qed.

Lemma allDigits_uint0 (d : Decimal.uint) : allDigits (NilZero.string_of_uint d) = true.
Proof. destruct d; try reflexivity; apply (allDigits_uint (_ _)). Qed.

Lemma allDigits_has (c : ascii) (s : string) :
  isDigit c = false -> allDigits s = true -> has c s = false.
Proof.
  intros Hc. induction s as [|d s IH]; simpl; [reflexivity|].
  intros H. apply andb_prop in H as [Hd Hs].
  rewrite IH by assumption. rewrite orb_false_r.
  apply Ascii.eqb_neq. intros ->. congruence.
Qed.

(** The decimal text of a length has no NUL and no space in it. *)
Lemma FormatInt_nonneg_digits (i : Z) : 0 <= i -> allDigits (FormatInt i) = true.
Proof.
  intros H. unfold FormatInt.
  destruct i as [|p|p]; try lia; [reflexivity|].
  cbn [Z.to_int NilZero.string_of_int]. apply allDigits_uint0.
Qed.

Lemma FormatInt_len_no (c : ascii) (s : string) :
  isDigit c = false -> has c (FormatInt (len s)) = false.
Proof.
  intros Hc. apply allDigits_has; [assumption|].
  apply FormatInt_nonneg_digits, len_nonneg.
Qed.

Lemma EncodeToString_length (src : string) :
  String.length (EncodeToString src) = (2 * String.length src)%nat.
Proof. induction src as [|b s IH]; simpl; [reflexivity | rewrite IH; lia]. Qed.

Lemma hex_sha_len (buf : string) : len (EncodeToString (GetSha buf)) = 40.
Proof. unfold len, GetSha. rewrite EncodeToString_length, sha1_Size. reflexivity. Qed.

(** ** The object store *)

(** Where [WriteObject] and [CatFile] keep the object called [name], and
    the directories above it. *)
Definition objectPath (name : string) : string :=
  ".git/objects/" +:+ take 2 name +:+ "/" +:+ drop 2 name.

Definition objectDirs (name : string) : list string :=
  [".git"; ".git/objects"; ".git/objects/" +:+ take 2 name].

Definition isFile (g : gitdir) (p : string) : bool :=
  match g !! p with
  | Some (GFile _) => true
  | _ => false
  end.

(** No regular file stands where the object needs a directory. *)
Definition storeReady (name : string) (g : gitdir) : Prop :=
  forallb (fun p => negb (isFile g p)) (objectDirs name) = true.

(** The place of the object is free, or already holds these bytes. *)
Definition slotFits (name contents : string) (g : gitdir) : Prop :=
  g !! objectPath name = None \/
  g !! objectPath name = Some (GFile (zlib_Write contents)).

Lemma MkdirAll_Some (chain : list string) (g g' : gitdir) :
  MkdirAll chain g = Some g' ->
  (forall p, p ∈ chain -> g' !! p = Some GDir) /\
  (forall p, p ∉ chain -> g' !! p = g !! p).
Proof.
  revert g; induction chain as [|q chain IH]; intros g H; cbn [MkdirAll] in H.
  - injection H as <-. split; [intros p Hp; inversion Hp | reflexivity].
  - destruct (g !! q) as [[d|]|] eqn:Eq; [discriminate| |];
      destruct (IH _ H) as [Hin Hout]; split; intros p Hp.
    + apply elem_of_cons in Hp as [->|Hp]; [|auto].
      destruct (decide (q ∈ chain)) as [Hq|Hq]; [auto|].
      rewrite Hout by assumption. assumption.
    + apply not_elem_of_cons in Hp as [_ Hp]. auto.
    + apply elem_of_cons in Hp as [->|Hp]; [|auto].
      destruct (decide (q ∈ chain)) as [Hq|Hq]; [auto|].
      rewrite Hout by assumption. apply lookup_insert_eq.
    + apply not_elem_of_cons in Hp as [Hne Hp].
      rewrite Hout by assumption. apply lookup_insert_ne. congruence.
Qed.

Lemma MkdirAll_ready (chain : list string) (g : gitdir) :
  forallb (fun p => negb (isFile g p)) chain = true ->
  exists g', MkdirAll chain g = Some g'.
Proof.
  revert g; induction chain as [|q chain IH]; intros g H; cbn [MkdirAll].
  - eauto.
  - cbn [forallb] in H. apply andb_prop in H as [Hq H].
    unfold isFile in Hq.
    destruct (g !! q) as [[d|]|] eqn:Eq; [discriminate| |]; apply IH; [assumption|].
    rewrite forallb_forall in *. intros p Hp. specialize (H p Hp).
    unfold isFile in *. destruct (decide (q = p)) as [->|Hne].
    + now rewrite lookup_insert_eq.
    + now rewrite lookup_insert_ne.
Qed.

Lemma MkdirAll_id (chain : list string) (g : gitdir) :
  (forall p, p ∈ chain -> g !! p = Some GDir) -> MkdirAll chain g = Some g.
Proof.
  induction chain as [|q chain IH]; intros H; cbn [MkdirAll]; [reflexivity|].
  rewrite (H q) by apply list_elem_of_here.
  apply IH. intros p Hp. apply H. now apply list_elem_of_further.
Qed.

(** What [WriteObject] does for a name of two characters or more. *)
Lemma WriteObject_unfold (name contents : string) (g : gitdir) :
  2 <= len name ->
  WriteObject name contents g =
  match MkdirAll (objectDirs name) g with
  | None => Exit "Error creating object file"
  | Some g1 =>
      match g1 !! objectPath name with
      | Some _ => Done g1
      | None => Done (<[objectPath name := GFile (zlib_Write contents)]> g1)
      end
  end.
Proof.
  intros H. unfold WriteObject, objectDirs, objectPath.
  rewrite slice_to_ok by lia. cbn [mbind outcome_bind].
  change (Z.to_nat 2) with 2%nat.
  destruct (MkdirAll _ g) as [g1|]; [|reflexivity].
  rewrite slice_from_ok by lia. cbn [mbind outcome_bind].
  change (Z.to_nat 2) with 2%nat.
  rewrite !app_assoc_s. reflexivity.
Qed.

(** The object file is none of the directories above it. *)
Lemma objectPath_not_dir (name : string) :
  2 <= len name -> objectPath name ∉ objectDirs name.
Proof.
  intros H Hin. unfold objectDirs in Hin.
  assert (String.length (take 2 name) = 2%nat) as Ht
      by (rewrite take_length; unfold len in H; lia).
  assert (forall p, p ∈ [".git"; ".git/objects"; ".git/objects/" +:+ take 2 name] ->
                    (String.length p <= 15)%nat) as Hlen.
  { intros p Hp. repeat (apply elem_of_cons in Hp as [->|Hp]); try (cbn; lia).
    - rewrite length_app_s, Ht. cbn; lia.
    - inversion Hp. }
  specialize (Hlen _ Hin). unfold objectPath in Hlen.
  rewrite !length_app_s, Ht in Hlen. cbn in Hlen. lia.
Qed.

(** With the directories in order, [WriteObject] returns, the object is
    then in place, and an object that was there before is left as it
    was. *)
Lemma WriteObject_Done (name contents : string) (g : gitdir) :
  2 <= len name -> storeReady name g ->
  exists g1, WriteObject name contents g = Done g1 /\
    (g !! objectPath name = None ->
     g1 !! objectPath name = Some (GFile (zlib_Write contents))) /\
    (forall n, g !! objectPath name = Some n -> g1 !! objectPath name = Some n).
Proof.
  intros Hlen Hready. rewrite WriteObject_unfold by assumption.
  destruct (MkdirAll_ready _ _ Hready) as [g1 Hmk]. rewrite Hmk.
  destruct (MkdirAll_Some _ _ _ Hmk) as [_ Hout].
  specialize (Hout _ (objectPath_not_dir name Hlen)).
  destruct (g1 !! objectPath name) as [n|] eqn:E.
  - exists g1. split; [reflexivity|]. rewrite <- Hout.
    split; [congruence | intros n' Hn'; congruence].
  - eexists. split; [reflexivity|]. rewrite <- Hout.
    split; [intros _; apply lookup_insert_eq | congruence].
Qed.

(** A second [WriteObject] under the same name changes nothing, whatever
    contents it is given. *)
Lemma WriteObject_again (name contents contents' : string) (g g1 : gitdir) :
  WriteObject name contents g = Done g1 ->
  WriteObject name contents' g1 = Done g1.
Proof.
  intros H.
  assert (2 <= len name) as Hlen.
  { destruct (Z.le_gt_cases 2 (len name)) as [|Hlt]; [assumption|].
    unfold WriteObject in H. rewrite slice_to_short in H by lia. discriminate. }
  rewrite WriteObject_unfold in * by assumption.
  destruct (MkdirAll (objectDirs name) g) as [g2|] eqn:Hmk; [|discriminate].
  destruct (MkdirAll_Some _ _ _ Hmk) as [Hin _].
  pose proof (objectPath_not_dir name Hlen) as Hnd.
  assert (forall p, p ∈ objectDirs name -> g1 !! p = Some GDir) as Hdirs.
  { intros p Hp. destruct (g2 !! objectPath name); injection H as <-; [auto|].
    rewrite lookup_insert_ne; [auto|]. intros Heq. rewrite <- Heq in Hp. contradiction. }
  rewrite (MkdirAll_id _ _ Hdirs).
  destruct (g2 !! objectPath name) as [n|] eqn:E; injection H as <-.
  - now rewrite E.
  - now rewrite lookup_insert_eq.
Qed.

(** The canonical encoding in the spec's words:
    ["<kind> <len(payload)>" + NUL + payload]. *)
Definition encode (kind payload : string) : string :=
  kind +:+ " " +:+ FormatInt (len payload) +:+ NULL_SEP +:+ payload.

(** The name under which an object is stored: the hexadecimal digest
    of its encoding. *)
Definition objectName (kind payload : string) : string :=
  EncodeToString (GetSha (encode kind payload)).


(** [WriteBlob] on a regular file: encode, hash, store. *)
Lemma WriteBlob_File (perm : N) (P : string) (g : gitdir) :
  WriteBlob (Some (File perm P)) g =
  (g' ← WriteObject (EncodeToString (GetSha (encode "blob" P))) (encode "blob" P) g;
   Done (GetSha (encode "blob" P), g')).
Proof. reflexivity. Qed.

(** [WriteTree] on a directory: collect, sort, write the lines, store. *)
Lemma WriteTree_Dir (perm : N) (files : list (string * node)) (g : gitdir) :
  WriteTree (Dir perm files) g =
  ('(body, g) ← writeLines (sort_Slice lessName (collectLines WriteTree files)) "" g;
   storeTree body g).
Proof. reflexivity. Qed.


(** C1. The blob write path names a file's blob by the digest of
    ["blob <n>" NUL P], where [P] is the file's contents and [n] their
    length in bytes; for the six bytes of [hello] and a line feed, these
    are the 13 bytes ["blob 6" NUL "hello\n"]. *)
Theorem WriteBlob_canonical_digest (perm : N) (P : string) (g : gitdir) :
  (storeReady (objectName "blob" P) g ->
   exists g', WriteBlob (Some (File perm P)) g = Done (GetSha (encode "blob" P), g'))
  /\ encode "blob" ("hello" +:+ NEWLINE) = "blob 6" +:+ NULL_SEP +:+ "hello" +:+ NEWLINE
  /\ String.length (encode "blob" ("hello" +:+ NEWLINE)) = 13%nat.
Proof.
  split; [|split; reflexivity].
  intros Hready. rewrite WriteBlob_File.
  destruct (WriteObject_Done (EncodeToString (GetSha (encode "blob" P)))
              (encode "blob" P) g) as (g1 & -> & _);
    [rewrite hex_sha_len; lia | assumption |].
  now exists g1.
Qed.



(** C3. Storing is create-if-absent and idempotent: stored twice, a file
    gets the same id both times, both calls return, and the store after
    the second call is the store after the first.  In general, once
    [WriteObject] has returned for a name, a later call under that name
    returns without error and leaves the store as it is, whatever bytes
    it is handed: the object is not written again. *)
Theorem WriteObject_idempotent :
  (forall perm P g,
      storeReady (objectName "blob" P) g ->
      exists id g1,
        WriteBlob (Some (File perm P)) g = Done (id, g1) /\
        WriteBlob (Some (File perm P)) g1 = Done (id, g1))
  /\ (forall name contents g g1,
      WriteObject name contents g = Done g1 ->
      forall other, WriteObject name other g1 = Done g1).
Proof.
  split.
  - intros perm P g Hready. rewrite !WriteBlob_File.
    destruct (WriteObject_Done (objectName "blob" P) (encode "blob" P) g) as (g1 & Hw & _);
      [unfold objectName; rewrite hex_sha_len; lia | assumption |].
    unfold objectName in Hw.
    exists (GetSha (encode "blob" P)), g1. rewrite Hw. cbn [mbind outcome_bind].
    split; [reflexivity|].
    rewrite WriteBlob_File, (WriteObject_again _ _ _ _ _ Hw). reflexivity.
  - intros name contents g g1 Hw other. exact (WriteObject_again _ _ _ _ _ Hw).
Qed.

(** ** Byte-wise order of names *)

Definition ascending (names : list string) : Prop :=
  StronglySorted (fun a b => String.ltb a b = true) names.

Lemma ltb_asym (a b : string) : String.ltb a b = true -> String.ltb b a = false.
Proof.
  unfold String.ltb. rewrite (String.compare_antisym a b).
  destruct (String.compare b a); simpl; congruence.
Qed.

Lemma ltb_leb (a b : string) : String.ltb a b = true -> String.leb a b = true.
Proof. unfold String.ltb, String.leb. destruct (String.compare a b); congruence. Qed.

Lemma leb_ne_ltb (a b : string) : String.leb a b = true -> a <> b -> String.ltb a b = true.
Proof.
  unfold String.ltb, String.leb. intros H Hne.
  destruct (String.compare a b) eqn:E; try congruence.
  apply String.compare_eq_iff in E. contradiction.
Qed.

Lemma ltb_trans (a b c : string) :
  String.ltb a b = true -> String.ltb b c = true -> String.ltb a c = true.
Proof.
  intros Hab Hbc. apply leb_ne_ltb.
  - apply Is_true_true. change (String.le a c).
    transitivity b; apply Is_true_true, ltb_leb; assumption.
  - intros ->. apply ltb_asym in Hab. congruence.
Qed.

Lemma ltb_total (a b : string) :
  a <> b -> String.ltb a b = true \/ String.ltb b a = true.
Proof.
  intros Hne. destruct (String.leb_total a b) as [H|H].
  - left. now apply leb_ne_ltb.
  - right. apply leb_ne_ltb; congruence.
Qed.

(** ** Sorting by a key with pairwise distinct values *)

Section Sorting.

Context {A : Type} (key : A -> string).

Let less (a b : A) : bool := String.ltb (key a) (key b).

Lemma sort_insert_perm (x : A) (l : list A) : sort_insert less x l ≡ₚ x :: l.
Proof.
  induction l as [|y l IH]; cbn [sort_insert]; [reflexivity|].
  destruct (less y x); [|reflexivity].
  rewrite IH. apply perm_swap.
Qed.

Lemma sort_Slice_perm (l : list A) : sort_Slice less l ≡ₚ l.
Proof.
  induction l as [|x l IH]; cbn [sort_Slice]; [reflexivity|].
  now rewrite sort_insert_perm, IH.
Qed.

Lemma sort_insert_sorted (x : A) (l : list A) :
  key x ∉ map key l ->
  ascending (map key l) -> ascending (map key (sort_insert less x l)).
Proof.
  induction l as [|y l IH]; cbn [sort_insert map]; intros Hx Hs.
  - repeat constructor.
  - apply not_elem_of_cons in Hx as [Hne Hx].
    apply StronglySorted_inv in Hs as [Hs Hy].
    rewrite Forall_forall in Hy.
    unfold less at 1. destruct (String.ltb (key y) (key x)) eqn:E; cbn [map].
    + constructor; [apply IH; assumption|].
      apply Forall_forall. intros k Hk.
      assert (k ∈ map key (x :: l)) as Hk'.
      { change (k ∈ key <$> x :: l). rewrite <- (sort_insert_perm x l). exact Hk. }
      cbn [map] in Hk'. apply elem_of_cons in Hk' as [->|Hk']; [assumption|].
      now apply Hy.
    + assert (String.ltb (key x) (key y) = true) as Hxy
          by (destruct (ltb_total (key x) (key y)); congruence).
      constructor; [constructor; [assumption | now apply Forall_forall]|].
      constructor; [assumption|].
      apply Forall_forall. intros k Hk.
      eapply ltb_trans; [exact Hxy | auto].
Qed.

(** The sorted list lists the keys in strictly ascending order. *)
Lemma sort_Slice_sorted (l : list A) :
  NoDup (map key l) -> ascending (map key (sort_Slice less l)).
Proof.
  induction l as [|x l IH]; cbn [sort_Slice map]; intros Hnd.
  - constructor.
  - apply NoDup_cons in Hnd as [Hx Hnd].
    apply sort_insert_sorted; [|auto].
    intros Hin. apply Hx.
    change (key x ∈ key <$> l). rewrite <- (sort_Slice_perm l). exact Hin.
Qed.

(** Two lists with the same elements, both in strictly ascending order of
    their keys, are the same list: on a directory's entries every sort
    gives one result. *)
Lemma sorted_perm_unique (l1 l2 : list A) :
  ascending (map key l1) -> ascending (map key l2) -> l1 ≡ₚ l2 -> l1 = l2.
Proof.
  revert l2; induction l1 as [|a l1 IH]; intros l2 H1 H2 Hp.
  - now apply Permutation_nil in Hp.
  - destruct l2 as [|b l2]; [now apply Permutation_sym, Permutation_nil in Hp|].
    cbn [map] in *.
    apply StronglySorted_inv in H1 as [H1 Ha], H2 as [H2 Hb].
    rewrite Forall_forall in Ha, Hb.
    assert (a = b) as ->.
    { assert (a ∈ b :: l2) as Hin by (rewrite <- Hp; apply list_elem_of_here).
      assert (b ∈ a :: l1) as Hin' by (rewrite Hp; apply list_elem_of_here).
      apply elem_of_cons in Hin as [|Hin]; [assumption|].
      apply elem_of_cons in Hin' as [|Hin']; [congruence|].
      assert (String.ltb (key b) (key a) = true) as Hba
          by (apply Hb; change (key a ∈ key <$> l2); now apply list_elem_of_fmap_2).
      assert (String.ltb (key a) (key b) = true) as Hab
          by (apply Ha; change (key b ∈ key <$> l1); now apply list_elem_of_fmap_2).
      apply ltb_asym in Hab. congruence. }
    f_equal. apply IH; [assumption..|]. eapply Permutation_cons_inv, Hp.
Qed.

(** Sorting forgets the order in which the elements were presented. *)
Lemma sort_Slice_perm_eq (l1 l2 : list A) :
  l1 ≡ₚ l2 -> NoDup (map key l1) -> sort_Slice less l1 = sort_Slice less l2.
Proof.
  intros Hp Hnd. apply sorted_perm_unique.
  - now apply sort_Slice_sorted.
  - apply sort_Slice_sorted.
    change (NoDup (key <$> l2)). rewrite <- Hp. exact Hnd.
  - now rewrite !sort_Slice_perm.
Qed.

End Sorting.

(** ** Modes of tree entries *)

Lemma land_high_bit (x k : N) : (x < 2 ^ k)%N -> N.land x (N.shiftl 1 k) = 0%N.
Proof.
  intros Hx. apply N.bits_inj. intros i.
  rewrite N.land_spec, N.bits_0, N.shiftl_1_l, N.pow2_bits_eqb.
  destruct (N.eqb_spec k i) as [<-|Hne]; [|apply andb_false_r].
  rewrite andb_true_r.
  destruct (N.eq_dec x 0%N) as [->|Hx0]; [apply N.bits_0|].
  apply N.bits_above_log2, N.log2_lt_pow2; lia.
Qed.

Lemma Perm_bound (m : N) : (Perm m < 512)%N.
Proof.
  unfold Perm, ModePerm. change 511%N with (N.ones 9).
  rewrite N.land_ones. apply N.mod_lt. discriminate.
Qed.

Lemma Perm_not_symlink (m : N) : N.land (Perm m) ModeSymlink = 0%N.
Proof.
  apply land_high_bit. eapply N.lt_trans; [apply Perm_bound | reflexivity].
Qed.

Lemma Perm_not_dir (m : N) : N.land (Perm m) ModeDir = 0%N.
Proof.
  apply land_high_bit. eapply N.lt_trans; [apply Perm_bound | reflexivity].
Qed.

Lemma Perm_idem (m : N) : Perm (Perm m) = Perm m.
Proof. unfold Perm. now rewrite <- N.land_assoc, N.land_diag. Qed.

Lemma Perm_odd (m : N) : N.odd (Perm m) = N.odd m.
Proof.
  unfold Perm, ModePerm. rewrite <- !N.bit0_odd, N.land_spec.
  apply andb_true_r.
Qed.

Lemma mod2_odd (x : N) : negb (x mod 2 =? 0)%N = N.odd x.
Proof.
  rewrite <- N.bit0_odd, N.testbit_eqb, N.pow_0_r, N.div_1_r.
  assert (x mod 2 < 2)%N as H by (apply N.mod_lt; discriminate).
  remember (x mod 2)%N as r eqn:Hr. clear Hr.
  destruct (N.eqb_spec r 0%N), (N.eqb_spec r 1%N); simpl;
    try reflexivity; exfalso; lia.
Qed.

(** C6, as the code has it.  A regular file gets mode 100755 exactly
    when the execute bit for others, the lowest bit of its permissions,
    is set, and mode 100644 otherwise, whatever the execute bits for
    the owner and the group are. *)
Theorem entryMode_File (name : string) (perm : N) (data : string) :
  entryMode (Info name (File perm data)) = if N.odd perm then 100755 else 100644.
Proof.
  unfold entryMode, fi_IsDir, Info. cbn [fi_Mode].
  rewrite Perm_not_symlink, Perm_not_dir.
  cbn [N.eqb negb andb]. rewrite andb_true_r.
  rewrite Perm_idem, mod2_odd, Perm_odd. reflexivity.
Qed.

(** Directories and symbolic links get their own modes, whatever their
    permission bits. *)
Lemma entryMode_Symlink (name : string) (target : option node) :
  entryMode (Info name (Symlink target)) = 120000.
Proof. reflexivity. Qed.

Lemma entryMode_Dir (name : string) (perm : N) (files : list (string * node)) :
  entryMode (Info name (Dir perm files)) = 40000.
Proof.
  unfold entryMode, fi_IsDir, Info. cbn [fi_Mode].
  rewrite !N.land_lor_distr_l, Perm_not_symlink, Perm_not_dir, N.land_diag.
  cbn. rewrite andb_false_r. reflexivity.
Qed.

(** ** Trees *)

Definition lineName (line : TreeFile * pathOps) : string := Name line.1.

Lemma collectLines_cons (wt : node -> writer) (name : string) (child : node)
    (files : list (string * node)) :
  collectLines wt ((name, child) :: files) =
  (if String.eqb name ".git" then []
   else [({| Name := name;
             Mode := entryMode (Info name child);
             IsDir := fi_IsDir (Info name child) |},
          {| asTree := wt child; asBlob := WriteBlob (Some child) |})])
  ++ collectLines wt files.
Proof. reflexivity. Qed.

(** The names the first loop keeps: all but [.git], in the order listed. *)
Lemma collectLines_names (wt : node -> writer) (files : list (string * node)) :
  map lineName (collectLines wt files) = filter (fun n => n <> ".git") (map fst files).
Proof.
  induction files as [|[name child] files IH]; [reflexivity|].
  rewrite collectLines_cons, map_app, IH. cbn [map fst].
  rewrite filter_cons. destruct (String.eqb_spec name ".git") as [->|Hne].
  - rewrite decide_False by (intros H; now apply H). reflexivity.
  - rewrite decide_True by assumption. reflexivity.
Qed.

Lemma collectLines_NoDup (wt : node -> writer) (files : list (string * node)) :
  NoDup (map fst files) -> NoDup (map lineName (collectLines wt files)).
Proof. rewrite collectLines_names. apply NoDup_filter. Qed.

(** One record of a tree's payload: ["<mode> <name>"], NUL, and the raw
    digest of the child. *)
Definition treeEntry (line : TreeFile) (hash : string) : string :=
  FormatInt (Mode line) +:+ SPACE +:+ Name line +:+ NULL_SEP +:+ hash.

Fixpoint serialize (entries : list (TreeFile * string)) : string :=
  match entries with
  | [] => EmptyString
  | (line, hash) :: entries' => treeEntry line hash +:+ serialize entries'
  end.

(** The second loop appends one record per line, in the order of the
    lines. *)
Lemma writeLines_body (lines : list (TreeFile * pathOps)) (body : string) (g : gitdir)
    (body' : string) (g' : gitdir) :
  writeLines lines body g = Done (body', g') ->
  exists hashes, length hashes = length lines /\
    body' = body +:+ serialize (zip (map fst lines) hashes).
Proof.
  revert body g; induction lines as [|[line path] lines IH]; intros body g H;
    cbn [writeLines] in H.
  - injection H as <- <-. exists []. now rewrite app_nil_r_s.
  - destruct (if IsDir line then asTree path g else asBlob path g)
      as [[hash g1]| |]; cbn [mbind outcome_bind] in H; try discriminate.
    apply IH in H as (hashes & Hlen & ->).
    exists (hash :: hashes). split; [cbn; lia|].
    cbn [map fst zip zip_with serialize]. unfold treeEntry.
    now rewrite !app_assoc_s.
Qed.

(** ** The store only grows *)

(** The directories of the object store: [.git], [.git/objects] and the
    two-character directories below it. *)
Definition storeDir (p : string) : Prop :=
  p = ".git" \/ p = ".git/objects" \/
  (String.prefix ".git/objects/" p = true /\ String.length p = 15%nat).

(** None of them is a regular file. *)
Definition gitReady (g : gitdir) : Prop :=
  forall p, storeDir p -> isFile g p = false.

(** What is in [g] stays as it is in [g'], and every file that is new
    in [g'] is an object file. *)
Definition extends (g g' : gitdir) : Prop :=
  (forall p n, g !! p = Some n -> g' !! p = Some n) /\
  (forall p d, g !! p = None -> g' !! p = Some (GFile d) ->
               String.prefix ".git/objects/" p = true).

Lemma extends_refl (g : gitdir) : extends g g.
Proof. split; [auto | congruence]. Qed.

Lemma extends_trans (g1 g2 g3 : gitdir) : extends g1 g2 -> extends g2 g3 -> extends g1 g3.
Proof.
  intros [H12 N12] [H23 N23]. split; [auto|].
  intros p d Hp H3. destruct (g2 !! p) as [n|] eqn:E2.
  - pose proof (H23 _ _ E2) as E3. rewrite H3 in E3. injection E3 as <-. eauto.
  - eauto.
Qed.

Lemma take2_length (name : string) : 2 <= len name -> String.length (take 2 name) = 2%nat.
Proof. unfold len. rewrite take_length. lia. Qed.

Lemma prefix_app (a b : string) : String.prefix a (a +:+ b) = true.
Proof.
  induction a as [|c a IH]; [now destruct b|].
  change (String c a +:+ b) with (String c (a +:+ b)). cbn [String.prefix].
  destruct (Ascii.ascii_dec c c); [assumption | contradiction].
Qed.

Lemma objectDirs_storeDir (name p : string) :
  2 <= len name -> p ∈ objectDirs name -> storeDir p.
Proof.
  intros Hlen Hp. unfold objectDirs in Hp.
  repeat (apply elem_of_cons in Hp as [->|Hp]); unfold storeDir; auto.
  - right. right. split; [apply prefix_app|].
    rewrite length_app_s, take2_length by assumption. reflexivity.
  - inversion Hp.
Qed.

Lemma gitReady_storeReady (name : string) (g : gitdir) :
  2 <= len name -> gitReady g -> storeReady name g.
Proof.
  intros Hlen Hg. unfold storeReady. apply forallb_forall. intros p Hp.
  rewrite Hg; [reflexivity|].
  apply (objectDirs_storeDir name); [assumption | now apply list_elem_of_In].
Qed.

Lemma storeDir_short (p : string) : storeDir p -> (String.length p <= 15)%nat.
Proof. intros [->|[->|[_ ->]]]; cbn; lia. Qed.

Lemma objectPath_prefix (name : string) :
  String.prefix ".git/objects/" (objectPath name) = true.
Proof. apply prefix_app. Qed.

Lemma objectPath_long (name : string) :
  2 <= len name -> (16 <= String.length (objectPath name))%nat.
Proof.
  intros H. unfold objectPath. rewrite !length_app_s, take2_length by assumption.
  cbn. lia.
Qed.

(** [WriteObject] returns in a store that is ready, and leaves it ready
    and grown. *)
Lemma WriteObject_returns (name contents : string) (g : gitdir) :
  2 <= len name -> gitReady g ->
  exists g', WriteObject name contents g = Done g' /\ gitReady g' /\ extends g g'.
Proof.
  intros Hlen Hg. rewrite WriteObject_unfold by assumption.
  destruct (MkdirAll_ready _ _ (gitReady_storeReady _ _ Hlen Hg)) as [g1 Hmk].
  rewrite Hmk. destruct (MkdirAll_Some _ _ _ Hmk) as [Hin Hout].
  assert (gitReady g1 /\ extends g g1) as [Hg1 He1].
  { split; [|split].
    - intros p Hp. unfold isFile.
      destruct (decide (p ∈ objectDirs name)) as [Hd|Hd].
      + now rewrite (Hin _ Hd).
      + rewrite (Hout _ Hd). now apply Hg.
    - intros p n Hp. destruct (decide (p ∈ objectDirs name)) as [Hd|Hd].
      + rewrite (Hin _ Hd).
        pose proof (Hg p (objectDirs_storeDir name p Hlen Hd)) as Hf.
        unfold isFile in Hf. rewrite Hp in Hf. destruct n; [discriminate | reflexivity].
      + now rewrite (Hout _ Hd).
    - intros p d Hp Hp'. destruct (decide (p ∈ objectDirs name)) as [Hd|Hd].
      + rewrite (Hin _ Hd) in Hp'. discriminate.
      + rewrite (Hout _ Hd) in Hp'. congruence. }
  destruct (g1 !! objectPath name) as [n|] eqn:E; [now exists g1|].
  eexists. split; [reflexivity|]. split.
  - intros p Hp. unfold isFile. rewrite lookup_insert_ne; [now apply Hg1|].
    intros <-. pose proof (objectPath_long name Hlen).
    apply storeDir_short in Hp. lia.
  - apply (extends_trans _ g1); [assumption|]. split.
    + intros p n Hp. rewrite lookup_insert_ne; [assumption|]. congruence.
    + intros p d Hp Hp'. destruct (decide (objectPath name = p)) as [<-|Hne].
      * apply objectPath_prefix.
      * rewrite lookup_insert_ne in Hp' by assumption. congruence.
Qed.

(** A writer that returns a digest of 20 bytes in every store that is
    ready, and leaves the store ready and grown. *)
Definition returns (w : writer) : Prop :=
  forall g, gitReady g ->
    exists id g', w g = Done (id, g') /\ String.length id = 20%nat /\
                  gitReady g' /\ extends g g'.

Lemma WriteBlob_returns (n : node) (perm : N) (data : string) :
  os_Open n = Some (File perm data) -> returns (WriteBlob (Some n)).
Proof.
  intros Hopen g Hg. unfold WriteBlob. cbn [mbind option_bind]. rewrite Hopen.
  cbv zeta.
  change ("blob " +:+ FormatInt (len data) +:+ NULL_SEP +:+ data)
    with (encode "blob" data).
  destruct (WriteObject_returns (EncodeToString (GetSha (encode "blob" data)))
              (encode "blob" data) g) as (g' & -> & Hg' & He);
    [rewrite hex_sha_len; lia | assumption |].
  exists (GetSha (encode "blob" data)), g'. cbn [mbind outcome_bind].
  repeat split; try assumption; try apply He. apply sha1_Size.
Qed.

Lemma CommitTree_returns (now : Z) (treeSHA parentCommitSHA msg : string) :
  returns (CommitTree now treeSHA parentCommitSHA msg).
Proof.
  intros g Hg. unfold CommitTree. cbv zeta.
  destruct (WriteObject_returns
              (EncodeToString (GetSha (encode "commit" (commitBody now treeSHA parentCommitSHA msg))))
              (encode "commit" (commitBody now treeSHA parentCommitSHA msg)) g)
    as (g' & Hw & Hg' & He); [rewrite hex_sha_len; lia | assumption |].
  change ("commit " +:+ FormatInt (len (commitBody now treeSHA parentCommitSHA msg))
            +:+ NULL_SEP +:+ commitBody now treeSHA parentCommitSHA msg)
    with (encode "commit" (commitBody now treeSHA parentCommitSHA msg)).
  rewrite Hw. eexists _, g'. cbn [mbind outcome_bind].
  repeat split; try assumption; try apply He. apply sha1_Size.
Qed.

Lemma storeTree_returns (body : string) : returns (storeTree body).
Proof.
  intros g Hg. unfold storeTree. cbv zeta.
  destruct (WriteObject_returns (EncodeToString (GetSha (encode "tree" body)))
              (encode "tree" body) g) as (g' & Hw & Hg' & He);
    [rewrite hex_sha_len; lia | assumption |].
  change ("tree " +:+ FormatInt (len body) +:+ NULL_SEP +:+ body)
    with (encode "tree" body).
  rewrite Hw. eexists _, g'. cbn [mbind outcome_bind].
  repeat split; try assumption; try apply He. apply sha1_Size.
Qed.

(** A line whose entry can be written. *)
Definition lineReturns (line : TreeFile * pathOps) : Prop :=
  returns (if IsDir line.1 then asTree line.2 else asBlob line.2).

Lemma writeLines_returns (lines : list (TreeFile * pathOps)) (body : string) (g : gitdir) :
  Forall lineReturns lines -> gitReady g ->
  exists hashes g',
    writeLines lines body g = Done (body +:+ serialize (zip (map fst lines) hashes), g') /\
    length hashes = length lines /\
    Forall (fun h => String.length h = 20%nat) hashes /\
    gitReady g' /\ extends g g'.
Proof.
  intros Hall. revert body g.
  induction Hall as [|[line path] lines Hline _ IH]; intros body g Hg; cbn [writeLines].
  - exists [], g. cbn [map zip zip_with serialize]. rewrite app_nil_r_s.
    repeat split; auto using extends_refl; apply extends_refl.
  - destruct (Hline g Hg) as (hash & g1 & Hw & Hlen & Hg1 & He1). cbn [fst snd] in Hw.
    assert ((if IsDir line then asTree path g else asBlob path g) = Done (hash, g1)) as ->
        by (destruct (IsDir line); exact Hw).
    cbn [mbind outcome_bind].
    destruct (IH ((body +:+ FormatInt (Mode line) +:+ SPACE +:+ Name line +:+ NULL_SEP)
                    +:+ hash) g1 Hg1) as (hashes & g' & -> & Hl & Hh & Hg' & He').
    exists (hash :: hashes), g'. split.
    { cbn [map fst zip zip_with serialize]. unfold treeEntry.
      now rewrite !app_assoc_s. }
    split; [cbn; lia|]. split; [constructor; assumption|].
    split; [assumption|]. now apply (extends_trans _ g1).
Qed.

(** Induction on working trees. *)
Lemma node_induction (P : node -> Prop) :
  (forall perm data, P (File perm data)) ->
  (forall perm files, Forall (fun file => P file.2) files -> P (Dir perm files)) ->
  P (Symlink None) ->
  (forall target, P target -> P (Symlink (Some target))) ->
  forall n, P n.
Proof.
  intros HFile HDir HNone HSome.
  fix IH 1. intros [perm data|perm files|[target|]].
  - apply HFile.
  - apply HDir. induction files as [|[name child] files IHfiles]; constructor.
    + apply IH.
    + exact IHfiles.
  - apply HSome, IH.
  - exact HNone.
Qed.

(** The entries that [WriteTree] visits can be read: links lead to
    regular files, and so on below every directory. *)
Fixpoint treeReadable (n : node) : bool :=
  match n with
  | File _ _ => true
  | Dir _ files =>
      forallb (fun file => String.eqb file.1 ".git" || treeReadable file.2) files
  | Symlink _ =>
      match os_Open n with
      | Some (File _ _) => true
      | _ => false
      end
  end.

Lemma fi_IsDir_Info (name : string) (n : node) :
  fi_IsDir (Info name n) = match n with Dir _ _ => true | _ => false end.
Proof.
  unfold fi_IsDir, Info. cbn [fi_Mode]. destruct n as [perm data|perm files|target].
  - now rewrite Perm_not_dir.
  - now rewrite N.land_lor_distr_l, Perm_not_dir, N.land_diag.
  - reflexivity.
Qed.

(** [WriteTree] returns on every directory that can be read. *)
Lemma WriteTree_returns (n : node) :
  treeReadable n = true ->
  match n with Dir _ _ => returns (WriteTree n) | _ => True end.
Proof.
  induction n as [perm data|perm files IH| |target IH] using node_induction;
    intros Hread; try exact I.
  intros g Hg. rewrite WriteTree_Dir.
  assert (Forall lineReturns (collectLines WriteTree files)) as Hlines.
  { cbn [treeReadable] in Hread. rewrite forallb_forall in Hread.
    rewrite List.Forall_forall in IH. unfold collectLines.
    apply Forall_forall. intros line Hline.
    apply list_elem_of_In, in_flat_map in Hline as ([name child] & Hin & Hline).
    cbn [fst snd Info fi_Name] in Hline.
    specialize (Hread _ Hin). specialize (IH _ Hin). cbn [fst snd] in Hread, IH.
    destruct (String.eqb name ".git"); [inversion Hline|].
    destruct Hline as [<-|[]]. cbn [orb] in Hread.
    unfold lineReturns. cbn [fst snd IsDir asTree asBlob].
    rewrite fi_IsDir_Info.
    destruct child as [p d|p fs|t].
    - now apply (WriteBlob_returns _ p d).
    - exact (IH Hread).
    - cbn [treeReadable] in Hread.
      destruct (os_Open (Symlink t)) as [[p d| |]|] eqn:Ho; try discriminate.
      now apply (WriteBlob_returns _ p d). }
  assert (Forall lineReturns (sort_Slice lessName (collectLines WriteTree files))) as Hsorted.
  { pose proof (sort_Slice_perm lineName (collectLines WriteTree files)) as Hp.
    apply Forall_forall. intros line Hline. rewrite Forall_forall in Hlines.
    apply Hlines, (proj1 (elem_of_Permutation_proper line _ _ Hp)), Hline. }
  destruct (writeLines_returns _ "" g Hsorted Hg) as (hashes & g1 & -> & _ & _ & Hg1 & He1).
  cbn [mbind outcome_bind].
  destruct (storeTree_returns ("" +:+ serialize (zip (map fst
              (sort_Slice lessName (collectLines WriteTree files))) hashes)) g1 Hg1)
    as (id & g' & -> & Hlen & Hg' & He').
  exists id, g'. repeat split; try assumption; try apply (extends_trans _ g1 _ He1 He').
Qed.

(** C4. A tree object lists its entries in strictly ascending byte-wise
    order of their names, so a directory gives the same bytes, the same
    id and the same store in whatever order its entries are enumerated;
    and the tree is written whenever the entries can be read and the
    store's directories are in order. *)
Theorem WriteTree_order_independent (perm : N) (files1 files2 : list (string * node))
    (g : gitdir) :
  files1 ≡ₚ files2 ->
  NoDup (map fst files1) ->
  WriteTree (Dir perm files1) g = WriteTree (Dir perm files2) g
  /\ (forall id g', WriteTree (Dir perm files1) g = Done (id, g') ->
      exists entries,
        id = GetSha (encode "tree" (serialize entries)) /\
        ascending (map (fun e => Name e.1) entries) /\
        map (fun e => Name e.1) entries ≡ₚ filter (fun n => n <> ".git") (map fst files1))
  /\ (gitReady g -> treeReadable (Dir perm files1) = true ->
      exists id g', WriteTree (Dir perm files1) g = Done (id, g')).
Proof.
  intros Hp Hnd. split; [|split].
  - rewrite !WriteTree_Dir.
    assert (sort_Slice lessName (collectLines WriteTree files1)
            = sort_Slice lessName (collectLines WriteTree files2)) as ->; [|reflexivity].
    apply (sort_Slice_perm_eq lineName).
    + unfold collectLines. now apply Permutation_flat_map.
    + now apply collectLines_NoDup.
  - intros id g'. rewrite WriteTree_Dir.
    set (lines := sort_Slice lessName (collectLines WriteTree files1)).
    destruct (writeLines lines "" g) as [[body g1]| |] eqn:Hw;
      cbn [mbind outcome_bind]; try discriminate.
    unfold storeTree.
    destruct (WriteObject _ _ g1) as [g2| |]; cbn [mbind outcome_bind];
      try discriminate.
    intros [= <- <-].
    apply writeLines_body in Hw as (hashes & Hlen & ->).
    exists (zip (map fst lines) hashes).
    assert (map (fun e : TreeFile * string => Name e.1) (zip (map fst lines) hashes)
            = map lineName lines) as Hnames.
    { change (map (fun e : TreeFile * string => Name e.1) (zip (map fst lines) hashes))
        with ((Name ∘ fst) <$> zip (fst <$> lines) hashes).
      rewrite list_fmap_compose, fst_zip by (rewrite length_fmap; lia).
      rewrite <- list_fmap_compose. reflexivity. }
    rewrite Hnames. split; [reflexivity|]. split.
    + apply (sort_Slice_sorted lineName). now apply collectLines_NoDup.
    + rewrite <- (collectLines_names WriteTree).
      change (lineName <$> lines ≡ₚ lineName <$> collectLines WriteTree files1).
      apply fmap_Permutation, (sort_Slice_perm lineName).
  - intros Hg Hread.
    destruct (WriteTree_returns (Dir perm files1) Hread g Hg) as (id & g' & Hw & _).
    eauto.
Qed.

(** ** Reading objects *)

(** A header as the spec describes it: a kind among [blob], [tree] and
    [commit], a space, and a decimal length. *)
Definition headerOk (header : string) : bool :=
  let '(kind, length, found) := Cut header SPACE in
  found
  && (String.eqb kind "blob" || String.eqb kind "tree" || String.eqb kind "commit")
  && negb (String.eqb length "") && allDigits length.

(** C5, as the code has it.  [CatFile] on an id of two characters or more
    (every hexadecimal digest has forty) leaves with the not-found
    diagnostic when no file stands at the object's path, and with the
    read diagnostic when the decompressed stream ends before a NUL.  The
    header is skipped, not parsed: whatever precedes the first NUL, the
    bytes after it are written out. *)
Theorem CatFile_failures (id : string) (g : gitdir) :
  2 <= len id ->
  (g !! objectPath id = None -> CatFile id true g = Exit "Could not find Git object") /\
  (forall data stream clean,
      g !! objectPath id = Some (GFile data) ->
      zlib_NewReader data = Some (stream, clean) ->
      (has NUL stream = false -> CatFile id true g = Exit "Error reading Git object") /\
      (forall header rest,
          has NUL header = false -> stream = header +:+ NULL_SEP +:+ rest ->
          CatFile id true g = Done rest)).
Proof.
  intros Hlen.
  assert (forall file, g !! objectPath id = file ->
            CatFile id true g =
            match file with
            | None => Exit "Could not find Git object"
            | Some file =>
                match (match file with
                       | GFile data => zlib_NewReader data
                       | GDir => None
                       end) with
                | None => Panic "invalid memory address or nil pointer dereference"
                | Some (stream, _) =>
                    match skipHeader stream with
                    | None => Exit "Error reading Git object"
                    | Some rest => Done rest
                    end
                end
            end) as Hcat.
  { intros file <-. unfold CatFile.
    rewrite slice_to_ok, slice_from_ok by lia. cbn [mbind outcome_bind].
    change (Z.to_nat 2) with 2%nat. fold (objectPath id). reflexivity. }
  split.
  - intros Hg. now rewrite (Hcat _ Hg).
  - intros data stream clean Hg Hz. rewrite (Hcat _ Hg), Hz. split.
    + intros Hnul. now rewrite skipHeader_none.
    + intros header rest Hh ->. now rewrite skipHeader_app.
Qed.

(** ** Listing trees *)

(** One turn of the loop of [LSTreeCmd]. *)
Lemma lsLoop_turn (body : string) :
  lsLoop body =
  if String.eqb body "" then ([], Done tt)
  else match lsStep body with
       | (fileName, Done body') =>
           let '(names, ending) := lsLoop body' in (fileName :: names, ending)
       | (fileName, Exit d) => ([fileName], Exit d)
       | (fileName, Panic c) => ([fileName], Panic c)
       end.
Proof.
  funelim (lsLoop body);
    match goal with E : String.eqb _ _ = _ |- _ => rewrite E end;
    try match goal with E : lsStep _ = _ |- _ => rewrite E end;
    reflexivity.
Qed.

Lemma prefix_cons (c d : ascii) (s : string) :
  String.prefix (String c "") (String d s) = Ascii.eqb d c.
Proof.
  cbn [String.prefix]. destruct (Ascii.ascii_dec c d) as [->|Hne].
  - rewrite Ascii.eqb_refl. now destruct s.
  - symmetry. apply Ascii.eqb_neq. congruence.
Qed.

(** [bytes.Cut] at a one-byte separator that the text before it lacks. *)
Lemma Cut_app (c : ascii) (before after : string) :
  has c before = false ->
  Cut (before +:+ String c "" +:+ after) (String c "") = (before, after, true).
Proof.
  induction before as [|d s IH]; intros H.
  - change ("" +:+ String c "" +:+ after) with (String c after).
    cbn [Cut]. rewrite prefix_cons, Ascii.eqb_refl. reflexivity.
  - cbn [has] in H. apply orb_false_elim in H as [Hd Hs].
    change (String d s +:+ String c "" +:+ after)
      with (String d (s +:+ String c "" +:+ after)).
    cbn [Cut]. rewrite prefix_cons, Ascii.eqb_sym, Hd, (IH Hs). reflexivity.
Qed.

(** The decimal text of any integer has neither NUL nor space. *)
Lemma FormatInt_no (c : ascii) (i : Z) :
  isDigit c = false -> c <> "-"%char -> has c (FormatInt i) = false.
Proof.
  intros Hc Hm. unfold FormatInt.
  destruct (Z.to_int i) as [d|d]; cbn [NilZero.string_of_int has].
  - apply allDigits_has; [assumption | apply allDigits_uint0].
  - rewrite (allDigits_has c _ Hc (allDigits_uint0 d)), orb_false_r.
    now apply Ascii.eqb_neq.
Qed.

(** Records as [WriteTree] writes them: a 20-byte digest, and a name
    without NUL. *)
Definition entryOk (entry : TreeFile * string) : Prop :=
  String.length entry.2 = 20%nat /\ has NUL (Name entry.1) = false.

Lemma lsStep_entry (line : TreeFile) (hash rest : string) :
  entryOk (line, hash) ->
  lsStep (treeEntry line hash +:+ rest) = (Name line, Done rest).
Proof.
  intros [Hlen Hname]. unfold lsStep, treeEntry. cbn [fst snd] in *.
  replace ((FormatInt (Mode line) +:+ SPACE +:+ Name line +:+ NULL_SEP +:+ hash) +:+ rest)
    with ((FormatInt (Mode line) +:+ SPACE +:+ Name line) +:+ NULL_SEP +:+ hash +:+ rest)
    by (now rewrite !app_assoc_s).
  unfold NULL_SEP at 1 2. rewrite Cut_app.
  2:{ rewrite !has_app, Hname, FormatInt_no by (reflexivity || discriminate).
      reflexivity. }
  unfold SPACE. rewrite Cut_app by (apply FormatInt_no; reflexivity || discriminate).
  rewrite slice_from_ok.
  2:{ unfold len. rewrite length_app_s, Hlen. lia. }
  change (Z.to_nat 20) with 20%nat. rewrite <- Hlen, drop_app_length. reflexivity.
Qed.

Lemma treeEntry_not_empty (line : TreeFile) (hash rest : string) :
  String.eqb (treeEntry line hash +:+ rest) "" = false.
Proof.
  apply String.eqb_neq. intros H. apply (f_equal String.length) in H.
  unfold treeEntry in H. rewrite !length_app_s in H. cbn in H. lia.
Qed.

(** On a payload of well-formed records the loop prints the names in
    the order stored and ends normally. *)
Lemma lsLoop_serialize (entries : list (TreeFile * string)) :
  Forall entryOk entries ->
  lsLoop (serialize entries) = (map (fun e => Name e.1) entries, Done tt).
Proof.
  induction 1 as [|[line hash] entries He _ IH]; rewrite lsLoop_turn.
  - reflexivity.
  - cbn [serialize]. rewrite treeEntry_not_empty, lsStep_entry by assumption.
    rewrite IH. reflexivity.
Qed.

(** A payload whose last record stops inside its digest: the names up
    to that record are printed, and [body[20:]] panics. *)
Lemma lsLoop_truncated (entries : list (TreeFile * string)) (line : TreeFile)
    (part : string) :
  Forall entryOk entries ->
  has NUL (Name line) = false ->
  (String.length part < 20)%nat ->
  lsLoop (serialize entries +:+ treeEntry line part) =
  (map (fun e => Name e.1) entries ++ [Name line], Panic "slice bounds out of range").
Proof.
  intros Hall Hname Hpart.
  induction Hall as [|[l h] entries He _ IH]; rewrite lsLoop_turn.
  - change (serialize [] +:+ treeEntry line part) with (treeEntry line part).
    rewrite <- (app_nil_r_s (treeEntry line part)), treeEntry_not_empty.
    unfold lsStep, treeEntry.
    replace ((FormatInt (Mode line) +:+ SPACE +:+ Name line +:+ NULL_SEP +:+ part) +:+ "")
      with ((FormatInt (Mode line) +:+ SPACE +:+ Name line) +:+ NULL_SEP +:+ part)
      by (now rewrite !app_assoc_s, app_nil_r_s).
    unfold NULL_SEP at 1 2. rewrite Cut_app.
    2:{ rewrite !has_app, Hname, FormatInt_no by (reflexivity || discriminate).
        reflexivity. }
    unfold SPACE. rewrite Cut_app by (apply FormatInt_no; reflexivity || discriminate).
    unfold slice_from, slice, len.
    replace (20 <=? Z.of_nat (String.length part)) with false
      by (symmetry; apply Z.leb_gt; lia).
    reflexivity.
  - cbn [serialize]. rewrite app_assoc_s, treeEntry_not_empty, lsStep_entry by assumption.
    rewrite IH. reflexivity.
Qed.

(** [LSTreeCmd] on a stored object: the loop runs on what follows the
    first NUL. *)
Lemma LSTreeCmd_stored (name kind payload : string) (g : gitdir) :
  (forall b, zlib_NewReader (zlib_Write b) = Some (b, true)) ->
  2 <= len name ->
  has NUL kind = false ->
  g !! objectPath name = Some (GFile (zlib_Write (encode kind payload))) ->
  LSTreeCmd name g = lsLoop payload.
Proof.
  intros Hz Hlen Hkind Hg. unfold LSTreeCmd.
  rewrite slice_to_ok, slice_from_ok by lia.
  change (Z.to_nat 2) with 2%nat. fold (objectPath name).
  rewrite Hg, Hz. unfold encode.
  rewrite <- (app_assoc_s kind " "), <- (app_assoc_s (kind +:+ " ")).
  unfold NULL_SEP. rewrite Cut_app; [reflexivity|].
  rewrite !has_app, Hkind, FormatInt_len_no by reflexivity. reflexivity.
Qed.

(** [ls-tree] on a stored tree of well-formed records prints the names
    in the order stored. *)
Lemma LSTreeCmd_names (name : string) (entries : list (TreeFile * string)) (g : gitdir) :
  (forall b, zlib_NewReader (zlib_Write b) = Some (b, true)) ->
  2 <= len name ->
  g !! objectPath name = Some (GFile (zlib_Write (encode "tree" (serialize entries)))) ->
  Forall entryOk entries ->
  LSTreeCmd name g = (map (fun e => Name e.1) entries, Done tt).
Proof.
  intros Hz Hlen Hg Hok.
  rewrite (LSTreeCmd_stored name "tree" (serialize entries)) by (assumption || reflexivity).
  now apply lsLoop_serialize.
Qed.

(** [ls-tree] on a stored tree whose last record stops inside its
    digest panics, after the names it could read. *)
Lemma LSTreeCmd_truncated (name : string) (entries : list (TreeFile * string))
    (line : TreeFile) (part : string) (g : gitdir) :
  (forall b, zlib_NewReader (zlib_Write b) = Some (b, true)) ->
  2 <= len name ->
  g !! objectPath name
    = Some (GFile (zlib_Write (encode "tree" (serialize entries +:+ treeEntry line part)))) ->
  Forall entryOk entries ->
  has NUL (Name line) = false ->
  (String.length part < 20)%nat ->
  LSTreeCmd name g =
  (map (fun e => Name e.1) entries ++ [Name line], Panic "slice bounds out of range").
Proof.
  intros Hz Hlen Hg Hok Hname Hpart.
  rewrite (LSTreeCmd_stored name "tree" (serialize entries +:+ treeEntry line part))
    by (assumption || reflexivity).
  now apply lsLoop_truncated.
Qed.

(** ** Commits *)

(** The lines of a commit before its message. *)
Definition commitHead (now : Z) (treeSHA parentCommitSHA : string) : string :=
  "tree " +:+ treeSHA +:+ NEWLINE +:+ "parent " +:+ parentCommitSHA +:+ NEWLINE
  +:+ "author " +:+ author +:+ " " +:+ authorMail +:+ " " +:+ FormatInt now
  +:+ " " +:+ timezoneOffset +:+ NEWLINE
  +:+ "committer " +:+ author +:+ " " +:+ authorMail +:+ " " +:+ FormatInt now
  +:+ " " +:+ timezoneOffset +:+ NEWLINE +:+ NEWLINE.

(** The message as the spec wants it closed: a newline is added only to
    a message that does not end with one. *)
Definition terminated (msg : string) : string :=
  if HasSuffix msg NEWLINE then msg else msg +:+ NEWLINE.

Lemma commitBody_head (now : Z) (treeSHA parentCommitSHA msg : string) :
  commitBody now treeSHA parentCommitSHA msg =
  commitHead now treeSHA parentCommitSHA +:+ msg +:+ NEWLINE.
Proof. unfold commitBody, commitHead. now rewrite !app_assoc_s. Qed.

Lemma HasSuffix_app (a b : string) : HasSuffix (a +:+ b) b = true.
Proof.
  unfold HasSuffix. rewrite length_app_s.
  replace (String.length a + String.length b - String.length b)%nat
    with (String.length a) by lia.
  rewrite drop_app_length. apply String.eqb_refl.
Qed.

(** C8, as the code has it.  [CommitTree] writes the message and then a
    newline, always: the payload is the head lines, the message as
    given, and one added newline, also after a message that ends with a
    newline already; that payload is what is hashed and stored. *)
Theorem CommitTree_appends_newline (now : Z) (treeSHA parentCommitSHA msg : string)
    (g : gitdir) :
  commitBody now treeSHA parentCommitSHA msg
    = commitHead now treeSHA parentCommitSHA +:+ msg +:+ NEWLINE
  /\ HasSuffix (commitBody now treeSHA parentCommitSHA msg) (msg +:+ NEWLINE) = true
  /\ CommitTree now treeSHA parentCommitSHA msg g =
     (let payload := commitHead now treeSHA parentCommitSHA +:+ msg +:+ NEWLINE in
      g' ← WriteObject (EncodeToString (GetSha (encode "commit" payload)))
                       (encode "commit" payload) g;
      Done (GetSha (encode "commit" payload), g')).
Proof.
  split; [apply commitBody_head|]. split.
  - rewrite commitBody_head. apply HasSuffix_app.
  - unfold CommitTree. rewrite commitBody_head. reflexivity.
Qed.

Lemma app_inv_head_s (a b c : string) : a +:+ b = a +:+ c -> b = c.
Proof. apply String.app_inj. Qed.

(** Text that is cut at the first occurrence of a byte has one cut. *)
Lemma app_split_unique (c : ascii) (a1 a2 r1 r2 : string) :
  has c a1 = false -> has c a2 = false ->
  a1 +:+ String c r1 = a2 +:+ String c r2 -> a1 = a2.
Proof.
  revert a2; induction a1 as [|x a1 IH]; intros [|y a2] H1 H2 H;
    cbn [has] in *; try reflexivity.
  - injection H as <- _. rewrite Ascii.eqb_refl in H2. discriminate.
  - injection H as -> _. rewrite Ascii.eqb_refl in H1. discriminate.
  - apply orb_false_elim in H1 as [_ H1], H2 as [_ H2].
    injection H as -> H. f_equal. now apply IH.
Qed.

Lemma FormatInt_inj (i j : Z) : FormatInt i = FormatInt j -> i = j.
Proof.
  unfold FormatInt. intros H.
  assert (forall z, NilZero.int_of_string (NilZero.string_of_int (Z.to_int z))
                    = Some (Z.to_int z)) as Hisi.
  { intros z. apply NilZero.isi; destruct z; cbn [Z.to_int];
      try discriminate; intros [= E]; now apply DecimalPos.Unsigned.to_uint_nonnil in E. }
  apply to_int_inj.
  pose proof (Hisi i) as Hi. rewrite H, Hisi in Hi. congruence.
Qed.

(** C9, as the code has it.  [CommitTree] takes the tree, the parent and
    the message; the author and committer are the constants of the
    source, and the time is read from the clock.  The payload is
    determined by these three arguments and the clock reading, and two
    calls with the same arguments give the same payload exactly when
    the clock reads the same second. *)
Theorem CommitTree_depends_on_clock (now1 now2 : Z) (treeSHA parentCommitSHA msg : string) :
  (commitBody now1 treeSHA parentCommitSHA msg = commitBody now2 treeSHA parentCommitSHA msg
   <-> now1 = now2)
  /\ forall g,
      CommitTree now1 treeSHA parentCommitSHA msg g =
      (let payload := commitBody now1 treeSHA parentCommitSHA msg in
       g' ← WriteObject (EncodeToString (GetSha (encode "commit" payload)))
                        (encode "commit" payload) g;
       Done (GetSha (encode "commit" payload), g')).
Proof.
  split; [|reflexivity]. split; [|now intros ->].
  unfold commitBody. rewrite !app_assoc_s. intros H.
  repeat apply app_inv_head_s in H.
  apply FormatInt_inj.
  apply (app_split_unique " "%char _ _ _ _) in H;
    [assumption | apply FormatInt_no; reflexivity || discriminate..].
Qed.

(** ** The [commit] command *)

(** After the tree is written: an unreadable ref file makes [Commit]
    panic. *)
Lemma Commit_after_tree (now : Z) (cwd : node) (msg : string) (g : gitdir)
    (tree : string) (g1 : gitdir) (headFile ref : string) :
  WriteTree cwd g = Done (tree, g1) ->
  ReadFile ".git/HEAD" g1 = (headFile, false) ->
  slice headFile 5 (len headFile - 1) = Done ref ->
  (ReadFile (".git/" +:+ ref) g1).2 = true ->
  Commit now cwd msg g = Panic "slice bounds out of range".
Proof.
  intros Htree Hhead Href Herr. unfold Commit.
  rewrite Htree. cbn [mbind outcome_bind]. rewrite Hhead, Href.
  cbn [mbind outcome_bind].
  unfold ReadFile in *.
  destruct (g1 !! (".git/" +:+ ref)) as [[data|]|]; cbn [snd] in Herr;
    try discriminate; reflexivity.
Qed.

Lemma prefix_app_same (a b c : string) :
  String.prefix (a +:+ b) (a +:+ c) = String.prefix b c.
Proof.
  induction a as [|x a IH]; [reflexivity|].
  change (String x a +:+ b) with (String x (a +:+ b)).
  change (String x a +:+ c) with (String x (a +:+ c)).
  cbn [String.prefix]. destruct (Ascii.ascii_dec x x); [assumption | contradiction].
Qed.

(** Writing objects leaves [HEAD] as it is, and a ref file outside the
    object store as unreadable as it was. *)
Lemma extends_ReadFile (g g1 : gitdir) (path data : string) :
  extends g g1 -> ReadFile path g = (data, false) -> ReadFile path g1 = (data, false).
Proof.
  intros [Hkeep _]. unfold ReadFile.
  destruct (g !! path) as [[d|]|] eqn:E; intros [= <-].
  now rewrite (Hkeep _ _ E).
Qed.

Lemma extends_unreadable (g g1 : gitdir) (ref : string) :
  extends g g1 -> String.prefix "objects/" ref = false ->
  (ReadFile (".git/" +:+ ref) g).2 = true -> (ReadFile (".git/" +:+ ref) g1).2 = true.
Proof.
  intros [Hkeep Hnew] Href. unfold ReadFile.
  destruct (g !! (".git/" +:+ ref)) as [[d|]|] eqn:E; cbn [snd]; try discriminate; intros _.
  - now rewrite (Hkeep _ _ E).
  - destruct (g1 !! (".git/" +:+ ref)) as [[d|]|] eqn:E1; try reflexivity.
    apply (Hnew _ _ E) in E1.
    change ".git/objects/" with (".git/" +:+ "objects/") in E1.
    rewrite prefix_app_same in E1. congruence.
Qed.

(** C10. When the file that [.git/HEAD] names cannot be read, as in a
    repository without a commit, [Commit] writes the tree, slices the
    empty contents by [HEADsha[:len(HEADsha)-1]] before it looks at the
    error, and ends in a panic; the diagnostic for an unresolved HEAD
    is never reached. *)
Theorem Commit_panics_without_ref (now : Z) (perm : N) (files : list (string * node))
    (msg : string) (g : gitdir) (headFile ref : string) :
  gitReady g ->
  treeReadable (Dir perm files) = true ->
  ReadFile ".git/HEAD" g = (headFile, false) ->
  slice headFile 5 (len headFile - 1) = Done ref ->
  String.prefix "objects/" ref = false ->
  (ReadFile (".git/" +:+ ref) g).2 = true ->
  Commit now (Dir perm files) msg g = Panic "slice bounds out of range".
Proof.
  intros Hg Hread Hhead Href Hout Herr.
  destruct (WriteTree_returns (Dir perm files) Hread g Hg) as (tree & g1 & Hw & _ & _ & He).
  apply (Commit_after_tree now _ msg g tree g1 headFile ref Hw).
  - now apply (extends_ReadFile g).
  - assumption.
  - now apply (extends_unreadable g).
Qed.

(** * Further properties of the program *)

(** ** What writing does to the store *)

Lemma MkdirAll_keeps (chain : list string) (g g' : gitdir) :
  MkdirAll chain g = Some g' ->
  forall p n, g !! p = Some n -> g' !! p = Some n.
Proof.
  revert g; induction chain as [|q chain IH]; intros g H p n Hp; cbn [MkdirAll] in H.
  - now injection H as <-.
  - destruct (g !! q) as [[d|]|] eqn:Eq; [discriminate|eauto|].
    apply (IH _ H). rewrite lookup_insert_ne; [assumption | congruence].
Qed.

Lemma WriteObject_long_name (name contents : string) (g g' : gitdir) :
  WriteObject name contents g = Done g' -> 2 <= len name.
Proof.
  intros H. destruct (Z.le_gt_cases 2 (len name)) as [|Hlt]; [assumption|].
  unfold WriteObject in H. rewrite slice_to_short in H by lia. discriminate.
Qed.

(** [WriteObject] keeps every entry of [.git] as it is, and the only
    file it may add is the object's. *)
Lemma WriteObject_extends (name contents : string) (g g' : gitdir) :
  WriteObject name contents g = Done g' -> extends g g'.
Proof.
  intros H. pose proof (WriteObject_long_name _ _ _ _ H) as Hlen.
  rewrite WriteObject_unfold in H by assumption.
  destruct (MkdirAll (objectDirs name) g) as [g1|] eqn:Hmk; [|discriminate].
  destruct (MkdirAll_Some _ _ _ Hmk) as [Hin Hout].
  assert (extends g g1) as He1.
  { split; [exact (MkdirAll_keeps _ _ _ Hmk)|].
    intros p d Hp Hp'. destruct (decide (p ∈ objectDirs name)) as [Hd|Hd].
    - rewrite (Hin _ Hd) in Hp'. discriminate.
    - rewrite (Hout _ Hd) in Hp'. congruence. }
  destruct (g1 !! objectPath name) as [n|] eqn:E; injection H as <-; [assumption|].
  apply (extends_trans _ g1); [assumption|]. split.
  - intros p n Hp. rewrite lookup_insert_ne; [assumption | congruence].
  - intros p d Hp Hp'. destruct (decide (objectPath name = p)) as [<-|Hne].
    + apply objectPath_prefix.
    + rewrite lookup_insert_ne in Hp' by assumption. congruence.
Qed.

(** Once [WriteObject] has returned for a name, it returns in every
    later store and leaves it as it is. *)
Lemma WriteObject_settled (name contents contents' : string) (g g1 g2 : gitdir) :
  WriteObject name contents g = Done g1 -> extends g1 g2 ->
  WriteObject name contents' g2 = Done g2.
Proof.
  intros H [Hkeep _]. pose proof (WriteObject_long_name _ _ _ _ H) as Hlen.
  rewrite WriteObject_unfold in * by assumption.
  destruct (MkdirAll (objectDirs name) g) as [gm|] eqn:Hmk; [|discriminate].
  destruct (MkdirAll_Some _ _ _ Hmk) as [Hin _].
  pose proof (objectPath_not_dir name Hlen) as Hnd.
  assert ((forall p, p ∈ objectDirs name -> g1 !! p = Some GDir) /\
          exists n, g1 !! objectPath name = Some n) as [Hdirs [n Hn]].
  { destruct (gm !! objectPath name) as [n|] eqn:E; injection H as <-.
    - split; [auto | eauto].
    - split; [|exists (GFile (zlib_Write contents)); apply lookup_insert_eq].
      intros p Hp. rewrite lookup_insert_ne; [auto|].
      intros Heq. rewrite <- Heq in Hp. contradiction. }
  rewrite (MkdirAll_id (objectDirs name) g2) by (intros p Hp; apply Hkeep, Hdirs, Hp).
  now rewrite (Hkeep _ _ Hn).
Qed.

(** A writer that only adds to the store, that returns digests of 20
    bytes, and that repeats its result on every later store. *)
Definition grows (w : writer) : Prop :=
  forall g id g', w g = Done (id, g') -> extends g g' /\ String.length id = 20%nat.

Definition settled (w : writer) : Prop :=
  forall g id g1, w g = Done (id, g1) ->
    forall g2, extends g1 g2 -> w g2 = Done (id, g2).

(** Hash and store: the common end of the three writers. *)
Lemma put_grows (buf : string) (g : gitdir) (id : string) (g' : gitdir) :
  (g' ← WriteObject (EncodeToString (GetSha buf)) buf g; Done (GetSha buf, g'))
    = Done (id, g') ->
  extends g g' /\ String.length id = 20%nat.
Proof.
  destruct (WriteObject _ buf g) as [g1| |] eqn:Hw; cbn [mbind outcome_bind];
    try discriminate.
  intros [= <- <-]. split; [exact (WriteObject_extends _ _ _ _ Hw) | apply sha1_Size].
Qed.

Lemma put_settled (buf : string) (g : gitdir) (id : string) (g1 g2 : gitdir) :
  (g' ← WriteObject (EncodeToString (GetSha buf)) buf g; Done (GetSha buf, g'))
    = Done (id, g1) ->
  extends g1 g2 ->
  (g' ← WriteObject (EncodeToString (GetSha buf)) buf g2; Done (GetSha buf, g'))
    = Done (id, g2).
Proof.
  destruct (WriteObject _ buf g) as [g1'| |] eqn:Hw; cbn [mbind outcome_bind];
    try discriminate.
  intros [= <- <-] He. now rewrite (WriteObject_settled _ _ buf _ _ _ Hw He).
Qed.

Lemma WriteBlob_grows (file : option node) : grows (WriteBlob file).
Proof.
  intros g id g'. unfold WriteBlob.
  destruct (file ≫= os_Open) as [[perm data|perm files|target]|]; try discriminate.
  apply put_grows.
Qed.

Lemma WriteBlob_settled (file : option node) : settled (WriteBlob file).
Proof.
  intros g id g1. unfold WriteBlob.
  destruct (file ≫= os_Open) as [[perm data|perm files|target]|]; try discriminate.
  intros H g2 He. exact (put_settled _ _ _ _ _ H He).
Qed.

Lemma CommitTree_grows (now : Z) (treeSHA parentCommitSHA msg : string) :
  grows (CommitTree now treeSHA parentCommitSHA msg).
Proof. intros g id g'. apply put_grows. Qed.

Lemma CommitTree_settled (now : Z) (treeSHA parentCommitSHA msg : string) :
  settled (CommitTree now treeSHA parentCommitSHA msg).
Proof. intros g id g1 H g2 He. exact (put_settled _ _ _ _ _ H He). Qed.

Lemma storeTree_grows (body : string) : grows (storeTree body).
Proof. intros g id g'. apply put_grows. Qed.

Lemma storeTree_settled (body : string) : settled (storeTree body).
Proof. intros g id g1 H g2 He. exact (put_settled _ _ _ _ _ H He). Qed.

(** What the second loop of [WriteTree] runs for a line. *)
Definition lineOp (line : TreeFile * pathOps) : writer :=
  if IsDir line.1 then asTree line.2 else asBlob line.2.

Lemma writeLines_cons (line : TreeFile) (path : pathOps)
    (lines : list (TreeFile * pathOps)) (body : string) (g : gitdir) :
  writeLines ((line, path) :: lines) body g =
  ('(hash, g) ← lineOp (line, path) g;
   writeLines lines
     ((body +:+ FormatInt (Mode line) +:+ SPACE +:+ Name line +:+ NULL_SEP) +:+ hash) g).
Proof. cbn [writeLines]. unfold lineOp. cbn [fst snd]. now destruct (IsDir line). Qed.

(** Every line of a directory runs [WriteTree] on a subdirectory or
    [WriteBlob] on another entry. *)
Lemma collectLines_ops (P : writer -> Prop) (files : list (string * node)) :
  Forall (fun file => P (WriteTree file.2)) files ->
  (forall n, P (WriteBlob (Some n))) ->
  Forall (fun line => P (lineOp line)) (sort_Slice lessName (collectLines WriteTree files)).
Proof.
  intros Htree Hblob.
  assert (Forall (fun line => P (lineOp line)) (collectLines WriteTree files)) as Hall.
  { induction Htree as [|[name child] files Hchild _ IH]; [constructor|].
    rewrite collectLines_cons. apply Forall_app. split; [|exact IH].
    destruct (String.eqb name ".git"); [constructor|].
    constructor; [|constructor]. unfold lineOp. cbn [fst snd IsDir asTree asBlob].
    destruct (fi_IsDir (Info name child)); [exact Hchild | apply Hblob]. }
  pose proof (sort_Slice_perm lineName (collectLines WriteTree files)) as Hp.
  apply Forall_forall. intros line Hline. rewrite Forall_forall in Hall.
  apply Hall, (proj1 (elem_of_Permutation_proper line _ _ Hp)), Hline.
Qed.

Lemma writeLines_grows (lines : list (TreeFile * pathOps)) (body : string) (g : gitdir)
    (body' : string) (g' : gitdir) :
  Forall (fun line => grows (lineOp line)) lines ->
  writeLines lines body g = Done (body', g') ->
  extends g g' /\
  exists hashes, length hashes = length lines /\
    Forall (fun h => String.length h = 20%nat) hashes /\
    body' = body +:+ serialize (zip (map fst lines) hashes).
Proof.
  intros Hall. revert body g.
  induction Hall as [|[line path] lines Hline _ IH]; intros body g H.
  - cbn [writeLines] in H. injection H as <- <-. split; [apply extends_refl|].
    exists []. cbn [map zip zip_with serialize]. now rewrite app_nil_r_s.
  - rewrite writeLines_cons in H.
    destruct (lineOp (line, path) g) as [[hash g1]| |] eqn:Hop;
      cbn [mbind outcome_bind] in H; try discriminate.
    destruct (Hline _ _ _ Hop) as [He1 Hlen].
    destruct (IH _ _ H) as (He' & hashes & Hl & Hh & ->).
    split; [now apply (extends_trans _ g1)|].
    exists (hash :: hashes). split; [cbn; lia|]. split; [now constructor|].
    cbn [map fst zip zip_with serialize]. unfold treeEntry. now rewrite !app_assoc_s.
Qed.

Lemma writeLines_settled (lines : list (TreeFile * pathOps)) (body : string) (g : gitdir)
    (body' : string) (g1 g2 : gitdir) :
  Forall (fun line => grows (lineOp line) /\ settled (lineOp line)) lines ->
  writeLines lines body g = Done (body', g1) ->
  extends g1 g2 ->
  writeLines lines body g2 = Done (body', g2).
Proof.
  intros Hall. revert body g.
  induction Hall as [|[line path] lines [Hgrow Hset] Hrest IH]; intros body g H He.
  - cbn [writeLines] in *. now injection H as <- <-.
  - rewrite writeLines_cons in *.
    destruct (lineOp (line, path) g) as [[hash gm]| |] eqn:Hop;
      cbn [mbind outcome_bind] in H; try discriminate.
    assert (extends gm g1) as Hm.
    { eapply writeLines_grows; [|exact H].
      eapply Forall_impl; [exact Hrest | now intros ? []]. }
    rewrite (Hset _ _ _ Hop g2 (extends_trans _ _ _ Hm He)). cbn [mbind outcome_bind].
    exact (IH _ _ H He).
Qed.

Lemma WriteTree_grows (n : node) : grows (WriteTree n).
Proof.
  induction n as [perm data|perm files IH| |target IH] using node_induction;
    try (intros g id g' H; discriminate).
  intros g id g'. rewrite WriteTree_Dir.
  destruct (writeLines _ "" g) as [[body g1]| |] eqn:Hw; cbn [mbind outcome_bind];
    try discriminate.
  intros Hs. destruct (storeTree_grows _ _ _ _ Hs) as [He Hlen].
  split; [|assumption]. apply (extends_trans _ g1); [|assumption].
  eapply writeLines_grows; [|exact Hw].
  apply (collectLines_ops grows); [exact IH | intros child; apply WriteBlob_grows].
Qed.

Lemma WriteTree_settled (n : node) : settled (WriteTree n).
Proof.
  induction n as [perm data|perm files IH| |target IH] using node_induction;
    try (intros g id g' H; discriminate).
  intros g id g1. rewrite !WriteTree_Dir.
  destruct (writeLines _ "" g) as [[body gm]| |] eqn:Hw; cbn [mbind outcome_bind];
    try discriminate.
  intros Hs g2 He.
  destruct (storeTree_grows _ _ _ _ Hs) as [Hm _].
  assert (Forall (fun line => grows (lineOp line) /\ settled (lineOp line))
            (sort_Slice lessName (collectLines WriteTree files))) as Hall.
  { apply (collectLines_ops (fun w => grows w /\ settled w)).
    - eapply Forall_impl; [exact IH|]. intros file Hfile.
      split; [apply WriteTree_grows | exact Hfile].
    - intros child. split; [apply WriteBlob_grows | apply WriteBlob_settled]. }
  rewrite WriteTree_Dir.
  rewrite (writeLines_settled _ _ _ _ _ g2 Hall Hw (extends_trans _ _ _ Hm He)).
  cbn [mbind outcome_bind]. exact (storeTree_settled _ _ _ _ Hs g2 He).
Qed.

(** ** Writing trees *)

(** X1. [WriteTree] only adds to the store: when it returns, every
    entry that [.git] held is still there, unchanged, every file that
    is new lies under [.git/objects/], and the id is 20 bytes long. *)
Theorem WriteTree_only_adds (cwd : node) (g : gitdir) (id : string) (g' : gitdir) :
  WriteTree cwd g = Done (id, g') ->
  (forall p n, g !! p = Some n -> g' !! p = Some n) /\
  (forall p d, g !! p = None -> g' !! p = Some (GFile d) ->
               String.prefix ".git/objects/" p = true) /\
  String.length id = 20%nat.
Proof.
  intros H. destruct (WriteTree_grows cwd _ _ _ H) as [[Hkeep Hnew] Hlen]. auto.
Qed.

(** X2. [WriteTree] is idempotent: run again on the store it left, it
    returns the same id and writes nothing. *)
Theorem WriteTree_idempotent (cwd : node) (g : gitdir) (id : string) (g1 : gitdir) :
  WriteTree cwd g = Done (id, g1) ->
  WriteTree cwd g1 = Done (id, g1).
Proof.
  intros H. exact (WriteTree_settled cwd _ _ _ H g1 (extends_refl g1)).
Qed.

(** Every line of a loop that returned has been written at some store. *)
Lemma writeLines_Done_each (lines : list (TreeFile * pathOps)) (body : string)
    (g : gitdir) (result : string * gitdir) :
  writeLines lines body g = Done result ->
  Forall (fun line => exists g0 r, lineOp line g0 = Done r) lines.
Proof.
  revert body g; induction lines as [|[line path] lines IH]; intros body g H;
    [constructor|].
  rewrite writeLines_cons in H.
  destruct (lineOp (line, path) g) as [[hash g1]| |] eqn:Hop;
    cbn [mbind outcome_bind] in H; try discriminate.
  constructor; [eauto | eauto].
Qed.

Lemma WriteBlob_Done_readable (n : node) (g : gitdir) (r : string * gitdir) :
  WriteBlob (Some n) g = Done r ->
  exists perm data, os_Open n = Some (File perm data).
Proof.
  unfold WriteBlob. cbn [mbind option_bind].
  destruct (os_Open n) as [[perm data|perm files|target]|]; try discriminate. eauto.
Qed.

Lemma WriteTree_Done_readable (n : node) :
  forall g r, WriteTree n g = Done r -> treeReadable n = true.
Proof.
  induction n as [perm data|perm files IH| |target IH] using node_induction;
    intros g r H; try discriminate.
  rewrite WriteTree_Dir in H.
  destruct (writeLines _ "" g) as [[body g1]| |] eqn:Hw; cbn [mbind outcome_bind] in H;
    try discriminate.
  apply writeLines_Done_each in Hw.
  pose proof (sort_Slice_perm lineName (collectLines WriteTree files)) as Hp.
  cbn [treeReadable]. apply forallb_forall. intros [name child] Hin. cbn [fst snd].
  destruct (String.eqb name ".git") eqn:Hname; [reflexivity|]. cbn [orb].
  assert (({| Name := name;
              Mode := entryMode (Info name child);
              IsDir := fi_IsDir (Info name child) |},
           {| asTree := WriteTree child; asBlob := WriteBlob (Some child) |})
          ∈ sort_Slice lessName (collectLines WriteTree files)) as Hline.
  { apply (proj2 (elem_of_Permutation_proper _ _ _ Hp)).
    apply list_elem_of_In. unfold collectLines. apply in_flat_map.
    exists (name, child). split; [assumption|].
    cbn [fst snd Info fi_Name]. rewrite Hname. now left. }
  rewrite Forall_forall in Hw. destruct (Hw _ Hline) as (g0 & r0 & Hop).
  unfold lineOp in Hop. cbn [fst snd IsDir asTree asBlob] in Hop.
  rewrite fi_IsDir_Info in Hop.
  rewrite List.Forall_forall in IH. specialize (IH _ Hin). cbn [snd] in IH.
  destruct child as [p d|p fs|t].
  - reflexivity.
  - exact (IH _ _ Hop).
  - apply WriteBlob_Done_readable in Hop as (p & d & Ho). cbn [treeReadable].
    now rewrite Ho.
Qed.

(** X3. In a store whose directories are in order, [WriteTree] on a
    directory returns exactly when every entry below it, [.git]
    entries apart, can be read as a file: one symbolic link that
    dangles or leads to a directory makes the whole command exit. *)
Theorem WriteTree_returns_iff_readable (perm : N) (files : list (string * node))
    (g : gitdir) :
  gitReady g ->
  ((exists id g', WriteTree (Dir perm files) g = Done (id, g'))
   <-> treeReadable (Dir perm files) = true).
Proof.
  intros Hg. split.
  - intros (id & g' & H). exact (WriteTree_Done_readable _ _ _ H).
  - intros Hread.
    destruct (WriteTree_returns (Dir perm files) Hread g Hg) as (id & g' & H & _). eauto.
Qed.

(** X4. [WriteTree] leaves [.git] out wherever it is listed: a directory
    with an entry of that name gives the tree of the directory without
    it. *)
Theorem WriteTree_skips_git (perm : N) (before after : list (string * node))
    (dotgit : node) (g : gitdir) :
  WriteTree (Dir perm (before ++ (".git", dotgit) :: after)) g
  = WriteTree (Dir perm (before ++ after)) g.
Proof.
  rewrite !WriteTree_Dir. unfold collectLines. rewrite !flat_map_app.
  cbn [flat_map Info fi_Name fst snd]. reflexivity.
Qed.

(** X5. Equal contents make one object: after a file has been stored,
    storing any file with the same bytes, under other permission bits
    or reached through symbolic links, returns the same id and leaves
    the store as it is. *)
Theorem WriteBlob_same_contents (n1 n2 : node) (perm1 perm2 : N) (data : string)
    (g : gitdir) (id : string) (g1 : gitdir) :
  os_Open n1 = Some (File perm1 data) ->
  os_Open n2 = Some (File perm2 data) ->
  WriteBlob (Some n1) g = Done (id, g1) ->
  WriteBlob (Some n2) g1 = Done (id, g1).
Proof.
  intros H1 H2 Hw.
  assert (forall g0, WriteBlob (Some n2) g0 = WriteBlob (Some n1) g0) as ->
      by (intros g0; unfold WriteBlob; cbn [mbind option_bind]; now rewrite H1, H2).
  exact (WriteBlob_settled _ _ _ _ Hw g1 (extends_refl g1)).
Qed.

(** ** Listing trees, further *)

Lemma Cut_none (c : ascii) (s : string) :
  has c s = false -> Cut s (String c "") = (s, "", false).
Proof.
  induction s as [|d s IH]; intros H; [reflexivity|].
  cbn [has] in H. apply orb_false_elim in H as [Hd Hs].
  cbn [Cut]. rewrite prefix_cons, Ascii.eqb_sym, Hd, (IH Hs). reflexivity.
Qed.

Lemma slice_from_inv (s s' : string) (lo : Z) :
  slice_from s lo = Done s' ->
  0 <= lo <= len s /\ String.length s' = (String.length s - Z.to_nat lo)%nat.
Proof.
  intros H.
  assert (0 <= lo <= len s) as Hlo.
  { unfold slice_from, slice in H.
    destruct (0 <=? lo) eqn:E0; [|discriminate].
    destruct (lo <=? len s) eqn:E1; [|discriminate].
    apply Z.leb_le in E0, E1. lia. }
  split; [assumption|].
  rewrite slice_from_ok in H by assumption. injection H as <-. apply drop_length.
Qed.

Lemma lsStep_shorter_21 (body fileName body' : string) :
  lsStep body = (fileName, Done body') ->
  (String.length body' + 20 <= String.length body)%nat.
Proof.
  unfold lsStep. intros H.
  pose proof (Cut_after_length body NULL_SEP) as Hle.
  destruct (Cut body NULL_SEP) as [[info rest] found].
  destruct (Cut info SPACE) as [[mode name] found'].
  injection H as _ H. cbn [fst snd] in Hle.
  apply slice_from_inv in H as [Hlo Hlen]. unfold len in Hlo. lia.
Qed.

(** X6. The loop of [ls-tree] never leaves with a diagnostic.  On every
    payload it either ends normally, having printed at most one name
    for every 20 bytes, or panics after printing at least one line. *)
Theorem lsLoop_ends (body : string) :
  match (lsLoop body).2 with
  | Done _ => (20 * length (lsLoop body).1 <= String.length body)%nat
  | Exit _ => False
  | Panic _ => (lsLoop body).1 <> []
  end.
Proof.
  remember (String.length body) as n eqn:Hn. revert body Hn.
  induction n as [n IH] using lt_wf_ind. intros body ->.
  rewrite lsLoop_turn. destruct (String.eqb_spec body "") as [->|Hne].
  - cbn. lia.
  - destruct (lsStep body) as [fileName [body'| |]] eqn:Hstep.
    + pose proof (lsStep_shorter_21 _ _ _ Hstep) as Hlen.
      specialize (IH (String.length body') ltac:(lia) body' eq_refl).
      destruct (lsLoop body') as [names ending]. cbn [fst snd] in *.
      destruct ending; cbn [length]; try assumption; try discriminate. lia.
    + unfold lsStep in Hstep.
      destruct (Cut body NULL_SEP) as [[info rest] found].
      destruct (Cut info SPACE) as [[mode name] found'].
      injection Hstep as _ Hstep. unfold slice_from, slice in Hstep.
      destruct (_ && _); discriminate.
    + cbn. discriminate.
Qed.

(** X7. [ls-tree] reads any stored object as a tree: the kind in the
    header is not looked at.  On a payload without NUL that is not
    empty, such as the blob of a text file, it prints one line and
    panics; on an empty payload it prints nothing and returns. *)
Theorem LSTreeCmd_any_kind (name kind payload : string) (g : gitdir) :
  (forall b, zlib_NewReader (zlib_Write b) = Some (b, true)) ->
  2 <= len name ->
  has NUL kind = false ->
  g !! objectPath name = Some (GFile (zlib_Write (encode kind payload))) ->
  has NUL payload = false ->
  LSTreeCmd name g =
  if String.eqb payload "" then ([], Done tt)
  else ([(Cut payload SPACE).1.2], Panic "slice bounds out of range").
Proof.
  intros Hz Hlen Hkind Hg Hnul.
  rewrite (LSTreeCmd_stored name kind payload) by assumption.
  rewrite lsLoop_turn. destruct (String.eqb payload ""); [reflexivity|].
  unfold lsStep, NULL_SEP. rewrite Cut_none by assumption.
  destruct (Cut payload SPACE) as [[mode fileName] found]. reflexivity.
Qed.

(** X8. An object whose decompressed bytes hold no NUL at all:
    [cat-file] exits with the read diagnostic, while [ls-tree] takes
    the tree to be empty, prints nothing and returns normally. *)
Theorem no_NUL_CatFile_LSTreeCmd (id data stream : string) (clean : bool) (g : gitdir) :
  2 <= len id ->
  g !! objectPath id = Some (GFile data) ->
  zlib_NewReader data = Some (stream, clean) ->
  has NUL stream = false ->
  CatFile id true g = Exit "Error reading Git object" /\
  LSTreeCmd id g = ([], Done tt).
Proof.
  intros Hlen Hg Hz Hnul. split.
  - unfold CatFile. rewrite slice_to_ok, slice_from_ok by lia. cbn [mbind outcome_bind].
    change (Z.to_nat 2) with 2%nat. fold (objectPath id).
    now rewrite Hg, Hz, skipHeader_none.
  - unfold LSTreeCmd. rewrite slice_to_ok, slice_from_ok by lia.
    change (Z.to_nat 2) with 2%nat. fold (objectPath id).
    rewrite Hg, Hz. unfold NULL_SEP. rewrite Cut_none by assumption.
    cbn [fst snd]. now rewrite lsLoop_turn.
Qed.

(** X9. An id of fewer than two characters: [cat-file] and [ls-tree]
    panic at [hashSum[:2]] before they look for the object, and
    [WriteObject] panics before it touches the store. *)
Theorem short_id_panics (id contents : string) (output : bool) (g : gitdir) :
  len id < 2 ->
  CatFile id output g = Panic "slice bounds out of range" /\
  LSTreeCmd id g = ([], Panic "slice bounds out of range") /\
  WriteObject id contents g = Panic "slice bounds out of range".
Proof.
  intros H. unfold CatFile, LSTreeCmd, WriteObject.
  rewrite slice_to_short by assumption. auto.
Qed.

Lemma Forall_zip_entryOk (lines : list TreeFile) (hashes : list string) :
  Forall (fun line => has NUL (Name line) = false) lines ->
  Forall (fun h => String.length h = 20%nat) hashes ->
  Forall entryOk (zip lines hashes).
Proof.
  intros Hl. revert hashes. induction Hl as [|line lines Hline _ IH];
    intros hashes Hh; [constructor|].
  destruct Hh as [|h hashes Hh1 Hh]; [constructor|].
  cbn [zip zip_with]. constructor; [now split | now apply IH].
Qed.

(** X10. [ls-tree] after [write-tree]: listing the tree that
    [WriteTree] has just stored prints the names of the directory's
    entries, [.git] left out, in strictly ascending byte-wise order,
    and returns.  Names hold no NUL, and the place of the tree object
    must be free or hold the same object. *)
Theorem LSTreeCmd_after_WriteTree (perm : N) (files : list (string * node))
    (g : gitdir) (payload : string) (g1 : gitdir) :
  (forall b, zlib_NewReader (zlib_Write b) = Some (b, true)) ->
  NoDup (map fst files) ->
  Forall (fun file => has NUL file.1 = false) files ->
  writeLines (sort_Slice lessName (collectLines WriteTree files)) "" g
    = Done (payload, g1) ->
  storeReady (objectName "tree" payload) g1 ->
  slotFits (objectName "tree" payload) (encode "tree" payload) g1 ->
  exists g' names,
    WriteTree (Dir perm files) g = Done (GetSha (encode "tree" payload), g') /\
    LSTreeCmd (EncodeToString (GetSha (encode "tree" payload))) g' = (names, Done tt) /\
    ascending names /\
    names ≡ₚ filter (fun n => n <> ".git") (map fst files).
Proof.
  intros Hz Hnd Hnames Hw Hready Hslot.
  set (lines := sort_Slice lessName (collectLines WriteTree files)) in *.
  assert (2 <= len (objectName "tree" payload)) as Hlen
      by (unfold objectName; rewrite hex_sha_len; lia).
  destruct (WriteObject_Done _ (encode "tree" payload) g1 Hlen Hready)
    as (g' & Hobj & Hnew & Hold).
  assert (g' !! objectPath (objectName "tree" payload)
          = Some (GFile (zlib_Write (encode "tree" payload)))) as Hstored
      by (destruct Hslot; auto).
  assert (Forall (fun line => grows (lineOp line)) lines) as Hgrows
      by (apply (collectLines_ops grows);
          [apply Forall_forall; intros; apply WriteTree_grows
          | intros; apply WriteBlob_grows]).
  destruct (writeLines_grows _ _ _ _ _ Hgrows Hw) as (_ & hashes & Hl & Hh & Hpay).
  change ("" +:+ serialize (zip (map fst lines) hashes))
    with (serialize (zip (map fst lines) hashes)) in Hpay.
  assert (map lineName lines ≡ₚ filter (fun n => n <> ".git") (map fst files)) as Hperm.
  { rewrite <- (collectLines_names WriteTree).
    change (lineName <$> lines ≡ₚ lineName <$> collectLines WriteTree files).
    apply fmap_Permutation, (sort_Slice_perm lineName). }
  assert (map (fun e : TreeFile * string => Name e.1) (zip (map fst lines) hashes)
          = map lineName lines) as Hmap.
  { change (map (fun e : TreeFile * string => Name e.1) (zip (map fst lines) hashes))
      with ((Name ∘ fst) <$> zip (fst <$> lines) hashes).
    rewrite list_fmap_compose, fst_zip by (rewrite length_fmap; lia).
    rewrite <- list_fmap_compose. reflexivity. }
  exists g', (map lineName lines). split; [|split; [|split]].
  - rewrite WriteTree_Dir. fold lines. rewrite Hw. cbn [mbind outcome_bind].
    unfold storeTree.
    change ("tree " +:+ FormatInt (len payload) +:+ NULL_SEP +:+ payload)
      with (encode "tree" payload).
    unfold objectName in Hobj. now rewrite Hobj.
  - rewrite <- Hmap. fold (objectName "tree" payload).
    apply LSTreeCmd_names; try assumption; [now rewrite <- Hpay|].
    apply Forall_zip_entryOk; [|assumption].
    apply Forall_forall. intros line Hline.
    apply list_elem_of_fmap in Hline as (lp & -> & Hlp).
    assert (lineName lp ∈ filter (fun n => n <> ".git") (map fst files)) as Hin.
    { rewrite <- Hperm. change (lineName lp ∈ lineName <$> lines).
      now apply list_elem_of_fmap_2. }
    apply list_elem_of_filter in Hin as [_ Hin].
    apply list_elem_of_fmap in Hin as (file & Heq & Hfile).
    rewrite Forall_forall in Hnames. unfold lineName in Heq. rewrite Heq.
    now apply Hnames.
  - apply (sort_Slice_sorted lineName). now apply collectLines_NoDup.
  - exact Hperm.
Qed.

(** ** Commits, further *)

Lemma CommitTree_result (now : Z) (treeSHA parentCommitSHA msg : string) (g : gitdir) :
  gitReady g ->
  exists g',
    CommitTree now treeSHA parentCommitSHA msg g
      = Done (GetSha (encode "commit" (commitBody now treeSHA parentCommitSHA msg)), g') /\
    gitReady g' /\ extends g g'.
Proof.
  intros Hg.
  destruct (CommitTree_returns now treeSHA parentCommitSHA msg g Hg)
    as (id & g' & Hc & _ & Hg' & He).
  exists g'. split; [|auto].
  rewrite Hc. f_equal. f_equal. unfold CommitTree in Hc.
  destruct (WriteObject _ _ g) as [g1| |]; cbn [mbind outcome_bind] in Hc;
    try discriminate.
  now injection Hc as <- _.
Qed.

(** X11. [CommitTree] checks nothing about its arguments: for every
    tree id, parent id and message, whether or not they name stored
    objects, it returns in a store whose directories are in order, with
    the digest of the commit it has formatted, and only adds to the
    store. *)
Theorem CommitTree_accepts_any_ids (now : Z) (treeSHA parentCommitSHA msg : string)
    (g : gitdir) :
  gitReady g ->
  exists g',
    CommitTree now treeSHA parentCommitSHA msg g
      = Done (GetSha (encode "commit" (commitBody now treeSHA parentCommitSHA msg)), g') /\
    gitReady g' /\ extends g g'.
Proof.
  intros Hg.
  destruct (CommitTree_result now treeSHA parentCommitSHA msg g Hg) as (g' & Hc & Hg' & He).
  exists g'. auto.
Qed.

(** What a [Commit] that returned has done. *)
Lemma Commit_Done_inv (now : Z) (cwd : node) (msg : string) (g : gitdir)
    (id : string) (g' : gitdir) :
  Commit now cwd msg g = Done (id, g') ->
  exists tree g1 headFile ref sha parent,
    WriteTree cwd g = Done (tree, g1) /\
    ReadFile ".git/HEAD" g1 = (headFile, false) /\
    slice headFile 5 (len headFile - 1) = Done ref /\
    ReadFile (".git/" +:+ ref) g1 = (sha, false) /\
    slice_to sha (len sha - 1) = Done parent /\
    CommitTree now (EncodeToString tree) parent msg g1 = Done (id, g').
Proof.
  unfold Commit. intros H.
  destruct (WriteTree cwd g) as [[tree g1]| |]; cbn [mbind outcome_bind] in H;
    try discriminate.
  destruct (ReadFile ".git/HEAD" g1) as [headFile [|]] eqn:Hhead; [discriminate|].
  destruct (slice headFile 5 (len headFile - 1)) as [ref| |] eqn:Href;
    cbn [mbind outcome_bind] in H; try discriminate.
  destruct (ReadFile (".git/" +:+ ref) g1) as [sha err] eqn:Hsha.
  destruct (slice_to sha (len sha - 1)) as [parent| |] eqn:Hparent;
    cbn [mbind outcome_bind] in H; try discriminate.
  destruct err; [discriminate|].
  exists tree, g1, headFile, ref, sha, parent. repeat split; auto.
Qed.

(** X12. [Commit] never moves the branch.  When it returns, every entry
    of [.git] is as it was, [HEAD] and the ref file included, and only
    object files are new; so the same commit made again while the
    clock shows the same second returns the same id and writes
    nothing. *)
Theorem Commit_leaves_refs (now : Z) (cwd : node) (msg : string) (g : gitdir)
    (id : string) (g' : gitdir) :
  Commit now cwd msg g = Done (id, g') ->
  extends g g' /\
  (forall path data, ReadFile path g = (data, false) -> ReadFile path g' = (data, false)) /\
  Commit now cwd msg g' = Done (id, g').
Proof.
  intros H.
  destruct (Commit_Done_inv _ _ _ _ _ _ H)
    as (tree & g1 & headFile & ref & sha & parent & Ht & Hhead & Href & Hsha & Hpar & Hc).
  destruct (WriteTree_grows _ _ _ _ Ht) as [He1 _].
  destruct (CommitTree_grows _ _ _ _ _ _ _ Hc) as [He2 _].
  assert (extends g g') as He by exact (extends_trans _ _ _ He1 He2).
  split; [assumption|]. split; [intros path data; now apply extends_ReadFile|].
  unfold Commit.
  rewrite (WriteTree_settled _ _ _ _ Ht g' He2). cbn [mbind outcome_bind].
  rewrite (extends_ReadFile _ _ _ _ He2 Hhead), Href. cbn [mbind outcome_bind].
  rewrite (extends_ReadFile _ _ _ _ He2 Hsha), Hpar. cbn [mbind outcome_bind].
  exact (CommitTree_settled _ _ _ _ _ _ _ Hc g' (extends_refl g')).
Qed.

(** X13. [Commit] with a branch that has a commit: the tree is written,
    and the commit names as its parent the contents of the ref file
    without their last byte, whatever that byte is; the ref file is
    left as it was. *)
Theorem Commit_with_parent (now : Z) (perm : N) (files : list (string * node))
    (msg : string) (g : gitdir) (headFile ref sha : string) :
  gitReady g ->
  treeReadable (Dir perm files) = true ->
  ReadFile ".git/HEAD" g = (headFile, false) ->
  slice headFile 5 (len headFile - 1) = Done ref ->
  ReadFile (".git/" +:+ ref) g = (sha, false) ->
  sha <> "" ->
  exists tree g1 g',
    WriteTree (Dir perm files) g = Done (tree, g1) /\
    Commit now (Dir perm files) msg g
      = Done (GetSha (encode "commit"
                        (commitBody now (EncodeToString tree)
                           (take (String.length sha - 1) sha) msg)), g') /\
    ReadFile (".git/" +:+ ref) g' = (sha, false).
Proof.
  intros Hg Hread Hhead Href Hsha Hne.
  destruct (WriteTree_returns (Dir perm files) Hread g Hg)
    as (tree & g1 & Ht & _ & Hg1 & He1).
  destruct (CommitTree_result now (EncodeToString tree)
              (take (String.length sha - 1) sha) msg g1 Hg1) as (g' & Hc & _ & He2).
  exists tree, g1, g'. split; [assumption|]. split.
  - unfold Commit. rewrite Ht. cbn [mbind outcome_bind].
    rewrite (extends_ReadFile _ _ _ _ He1 Hhead), Href. cbn [mbind outcome_bind].
    rewrite (extends_ReadFile _ _ _ _ He1 Hsha).
    rewrite slice_to_ok.
    2:{ unfold len. destruct sha; [contradiction | cbn [String.length]; lia]. }
    cbn [mbind outcome_bind].
    replace (Z.to_nat (len sha - 1)) with (String.length sha - 1)%nat
      by (unfold len; lia).
    exact Hc.
  - apply (extends_ReadFile g); [|assumption]. exact (extends_trans _ _ _ He1 He2).
Qed.

(** X14. [Commit] and a broken [HEAD], once the tree is written: without
    a readable [.git/HEAD] it exits with the diagnostic; with a [HEAD]
    of fewer than six bytes it panics at [headFile[5:len(headFile)-1]];
    and with a ref file that is there but empty it panics at
    [HEADsha[:len(HEADsha)-1]], though the read gave no error. *)
Theorem Commit_broken_HEAD (now : Z) (perm : N) (files : list (string * node))
    (msg : string) (g : gitdir) :
  gitReady g ->
  treeReadable (Dir perm files) = true ->
  ((ReadFile ".git/HEAD" g).2 = true ->
   Commit now (Dir perm files) msg g = Exit "Error reading HEAD file")
  /\ (forall headFile,
      ReadFile ".git/HEAD" g = (headFile, false) -> len headFile < 6 ->
      Commit now (Dir perm files) msg g = Panic "slice bounds out of range")
  /\ (forall headFile ref,
      ReadFile ".git/HEAD" g = (headFile, false) ->
      slice headFile 5 (len headFile - 1) = Done ref ->
      ReadFile (".git/" +:+ ref) g = ("", false) ->
      Commit now (Dir perm files) msg g = Panic "slice bounds out of range").
Proof.
  intros Hg Hread.
  destruct (WriteTree_returns (Dir perm files) Hread g Hg)
    as (tree & g1 & Ht & _ & _ & He1).
  unfold Commit. rewrite Ht. cbn [mbind outcome_bind]. split; [|split].
  - intros Herr.
    pose proof (extends_unreadable g g1 "HEAD" He1 eq_refl Herr) as Herr1.
    change (".git/" +:+ "HEAD") with ".git/HEAD" in Herr1.
    destruct (ReadFile ".git/HEAD" g1) as [headFile err]. cbn [snd] in Herr1.
    now rewrite Herr1.
  - intros headFile Hhead Hshort.
    rewrite (extends_ReadFile _ _ _ _ He1 Hhead).
    unfold slice. replace (5 <=? len headFile - 1) with false
      by (symmetry; apply Z.leb_gt; lia).
    reflexivity.
  - intros headFile ref Hhead Href Hsha.
    rewrite (extends_ReadFile _ _ _ _ He1 Hhead), Href. cbn [mbind outcome_bind].
    rewrite (extends_ReadFile _ _ _ _ He1 Hsha). reflexivity.
Qed.

(** ** [init] *)

Lemma mkdir_default (chain : list string) (g : gitdir) :
  (forall p n, g !! p = Some n -> default g (MkdirAll chain g) !! p = Some n) /\
  (forall p, isFile (default g (MkdirAll chain g)) p = isFile g p) /\
  (forallb (fun p => negb (isFile g p)) chain = true ->
   forall p, p ∈ chain -> default g (MkdirAll chain g) !! p = Some GDir).
Proof.
  destruct (MkdirAll chain g) as [g'|] eqn:Hmk; cbn [from_option id].
  - destruct (MkdirAll_Some _ _ _ Hmk) as [Hin Hout].
    split; [exact (MkdirAll_keeps _ _ _ Hmk)|]. split; [|intros _; exact Hin].
    intros p. unfold isFile. destruct (decide (p ∈ chain)) as [Hp|Hp].
    + rewrite (Hin _ Hp). destruct (g !! p) as [[d|]|] eqn:E; try reflexivity.
      pose proof (MkdirAll_keeps _ _ _ Hmk _ _ E) as E'. rewrite (Hin _ Hp) in E'.
      discriminate.
    + now rewrite (Hout _ Hp).
  - split; [auto|]. split; [reflexivity|].
    intros Hready. destruct (MkdirAll_ready _ _ Hready) as [g' Hg']. congruence.
Qed.

(** X15. [init] in a directory where [.git] is no regular file: [.git]
    is a directory afterwards, and so are [.git/objects] and
    [.git/refs] unless a file stands there; every entry other than
    [HEAD] is kept, so the objects and refs of a repository that was
    there survive; and [HEAD], unless it is a directory, is rewritten
    to point at [refs/heads/master], whatever it held. *)
Theorem InitCmd_keeps_repository (g : gitdir) :
  isFile g ".git" = false ->
  (forall p n, p <> ".git/HEAD" -> g !! p = Some n -> InitCmd g !! p = Some n)
  /\ InitCmd g !! ".git" = Some GDir
  /\ (isFile g ".git/objects" = false -> InitCmd g !! ".git/objects" = Some GDir)
  /\ (isFile g ".git/refs" = false -> InitCmd g !! ".git/refs" = Some GDir)
  /\ (g !! ".git/HEAD" <> Some GDir ->
      ReadFile ".git/HEAD" (InitCmd g) = ("ref: refs/heads/master" +:+ NEWLINE, false)).
Proof.
  intros Hgit. unfold InitCmd. cbv zeta.
  set (g1 := default g (MkdirAll [".git"] g)).
  set (g2 := default g1 (MkdirAll [".git"; ".git/objects"] g1)).
  set (g3 := default g2 (MkdirAll [".git"; ".git/refs"] g2)).
  destruct (mkdir_default [".git"] g) as (K1 & F1 & D1). fold g1 in K1, F1, D1.
  destruct (mkdir_default [".git"; ".git/objects"] g1) as (K2 & F2 & D2).
  fold g2 in K2, F2, D2.
  destruct (mkdir_default [".git"; ".git/refs"] g2) as (K3 & F3 & D3).
  fold g3 in K3, F3, D3.
  assert (g1 !! ".git" = Some GDir) as Hd1.
  { apply D1; [cbn [forallb]; now rewrite Hgit | apply list_elem_of_here]. }
  assert (g3 !! ".git" = Some GDir) as Hd3 by auto.
  assert (forall p n, g !! p = Some n -> g3 !! p = Some n) as K by auto.
  assert (forall p, isFile g3 p = isFile g p) as F
      by (intros p; now rewrite F3, F2, F1).
  assert (forall p n, p <> ".git/HEAD" -> g3 !! p = Some n ->
            default g3 (WriteFile ".git/HEAD" ("ref: refs/heads/master" +:+ NEWLINE) g3) !! p
            = Some n) as W.
  { intros p n Hp Hn. unfold WriteFile.
    destruct (g3 !! ".git/HEAD") as [[d|]|]; cbn [from_option id]; try assumption;
      rewrite lookup_insert_ne; congruence. }
  split; [intros p n Hp Hn; apply W; auto|].
  split; [apply W; [discriminate | assumption]|].
  split; [|split].
  - intros Hobj. apply W; [discriminate|]. apply K3, D2.
    + cbn [forallb]. rewrite F1, Hgit, F1, Hobj. reflexivity.
    + apply list_elem_of_further, list_elem_of_here.
  - intros Hrefs. apply W; [discriminate|]. apply D3.
    + cbn [forallb]. rewrite F2, F1, Hgit, F2, F1, Hrefs. reflexivity.
    + apply list_elem_of_further, list_elem_of_here.
  - intros Hhead. unfold WriteFile, ReadFile.
    assert (g3 !! ".git/HEAD" <> Some GDir) as Hhead3.
    { intros E. destruct (g !! ".git/HEAD") as [[d|]|] eqn:E0.
      - rewrite (K _ _ E0) in E. discriminate.
      - contradiction.
      - pose proof (F ".git/HEAD") as Hf. unfold isFile in Hf.
        rewrite E, E0 in Hf. clear -E E0 K1 K2 K3 D1 D2 D3 Hgit F1 F2.
        (* a directory at HEAD can only have been there before *)
        assert (g1 !! ".git/HEAD" = None) as E1.
        { unfold g1. destruct (MkdirAll [".git"] g) as [g'|] eqn:Hmk; cbn [from_option id];
            [|assumption].
          destruct (MkdirAll_Some _ _ _ Hmk) as [_ Hout]. rewrite Hout; [assumption|].
          intros Hin. apply list_elem_of_singleton in Hin. discriminate. }
        assert (g2 !! ".git/HEAD" = None) as E2.
        { unfold g2. destruct (MkdirAll [".git"; ".git/objects"] g1) as [g'|] eqn:Hmk;
            cbn [from_option id]; [|assumption].
          destruct (MkdirAll_Some _ _ _ Hmk) as [_ Hout]. rewrite Hout; [assumption|].
          intros Hin. repeat (apply elem_of_cons in Hin as [Hin|Hin]; [discriminate|]).
          inversion Hin. }
        assert (g3 !! ".git/HEAD" = None) as E3.
        { unfold g3. destruct (MkdirAll [".git"; ".git/refs"] g2) as [g'|] eqn:Hmk;
            cbn [from_option id]; [|assumption].
          destruct (MkdirAll_Some _ _ _ Hmk) as [_ Hout]. rewrite Hout; [assumption|].
          intros Hin. repeat (apply elem_of_cons in Hin as [Hin|Hin]; [discriminate|]).
          inversion Hin. }
        congruence. }
    destruct (g3 !! ".git/HEAD") as [[d|]|]; cbn [from_option id];
      try contradiction; now rewrite lookup_insert_eq.
Qed.

(** ** Where objects are stored *)

Lemma take_drop_s (n : nat) (s : string) : take n s +:+ drop n s = s.
Proof.
  revert s; induction n as [|n IH]; intros [|c s]; try reflexivity.
  cbn [take drop]. change (String c (take n s) +:+ drop n s)
    with (String c (take n s +:+ drop n s)). now rewrite IH.
Qed.

Definition isHex (c : ascii) : bool :=
  isDigit c || ((97 <=? N_of_ascii c)%N && (N_of_ascii c <=? 102)%N).

Fixpoint allHex (s : string) : bool :=
  match s with
  | EmptyString => true
  | String c s' => isHex c && allHex s'
  end.

Lemma EncodeToString_hex (src : string) : allHex (EncodeToString src) = true.
Proof.
  induction src as [|b src IH]; [reflexivity|].
  cbn [EncodeToString allHex]. rewrite IH, andb_true_r.
  destruct b as [[] [] [] [] [] [] [] []]; reflexivity.
Qed.

Lemma allHex_app (a b : string) : allHex (a +:+ b) = allHex a && allHex b.
Proof.
  induction a as [|c a IH]; [reflexivity|].
  change (String c a +:+ b) with (String c (a +:+ b)). cbn [allHex].
  now rewrite IH, andb_assoc.
Qed.

Lemma WriteObject_stored (name contents : string) (g g' : gitdir) :
  WriteObject name contents g = Done g' ->
  (exists n, g' !! objectPath name = Some n) /\
  forall p, p ∈ objectDirs name -> g' !! p = Some GDir.
Proof.
  intros H. pose proof (WriteObject_long_name _ _ _ _ H) as Hlen.
  rewrite WriteObject_unfold in H by assumption.
  destruct (MkdirAll (objectDirs name) g) as [gm|] eqn:Hmk; [|discriminate].
  destruct (MkdirAll_Some _ _ _ Hmk) as [Hin _].
  pose proof (objectPath_not_dir name Hlen) as Hnd.
  destruct (gm !! objectPath name) as [n|] eqn:E; injection H as <-.
  - split; [eauto | auto].
  - split; [exists (GFile (zlib_Write contents)); apply lookup_insert_eq|].
    intros p Hp. rewrite lookup_insert_ne; [auto|].
    intros Heq. rewrite <- Heq in Hp. contradiction.
Qed.

(** X16. The layout of the store.  After a blob, a commit or a tree has
    been written, with id [id], the path [.git/objects/<aa>/<rest>] is
    taken, where [aa] are the first two and [rest] the other 38
    characters of the id in lowercase hexadecimal, and [.git],
    [.git/objects] and [.git/objects/<aa>] are directories. *)
Theorem object_layout (file : option node) (cwd : node) (now : Z)
    (treeSHA parentCommitSHA msg : string) (g : gitdir) (id : string) (g' : gitdir) :
  WriteBlob file g = Done (id, g') \/
  WriteTree cwd g = Done (id, g') \/
  CommitTree now treeSHA parentCommitSHA msg g = Done (id, g') ->
  exists aa rest,
    EncodeToString id = aa +:+ rest /\
    String.length aa = 2%nat /\ String.length rest = 38%nat /\
    allHex aa = true /\ allHex rest = true /\
    (exists n, g' !! (".git/objects/" +:+ aa +:+ "/" +:+ rest) = Some n) /\
    g' !! ".git" = Some GDir /\ g' !! ".git/objects" = Some GDir /\
    g' !! (".git/objects/" +:+ aa) = Some GDir.
Proof.
  intros H.
  assert (exists buf, id = GetSha buf /\
            exists n, g' !! objectPath (EncodeToString id) = Some n /\
            forall p, p ∈ objectDirs (EncodeToString id) -> g' !! p = Some GDir)
    as (buf & -> & n & Hn & Hdirs).
  { assert (forall buf g0,
              (g1 ← WriteObject (EncodeToString (GetSha buf)) buf g0; Done (GetSha buf, g1))
                = Done (id, g') ->
              exists buf, id = GetSha buf /\
                exists n, g' !! objectPath (EncodeToString id) = Some n /\
                forall p, p ∈ objectDirs (EncodeToString id) -> g' !! p = Some GDir) as Hput.
    { intros buf g0 Hw.
      destruct (WriteObject _ buf g0) as [g1| |] eqn:Hobj; cbn [mbind outcome_bind] in Hw;
        try discriminate.
      injection Hw as <- <-. exists buf. split; [reflexivity|].
      destruct (WriteObject_stored _ _ _ _ Hobj) as [[n Hn] Hd]. eauto. }
    destruct H as [H|[H|H]].
    - unfold WriteBlob in H.
      destruct (file ≫= os_Open) as [[perm data|perm files|target]|]; try discriminate.
      exact (Hput _ _ H).
    - destruct cwd as [perm data|perm files|target]; try discriminate.
      rewrite WriteTree_Dir in H.
      destruct (writeLines _ "" g) as [[body g1]| |]; cbn [mbind outcome_bind] in H;
        try discriminate.
      exact (Hput _ _ H).
    - exact (Hput _ _ H). }
  pose proof (hex_sha_len buf) as Hlen. unfold len in Hlen.
  exists (take 2 (EncodeToString (GetSha buf))), (drop 2 (EncodeToString (GetSha buf))).
  pose proof (EncodeToString_hex (GetSha buf)) as Hhex.
  rewrite <- (take_drop_s 2 (EncodeToString (GetSha buf))), allHex_app in Hhex.
  apply andb_prop in Hhex as [Ha Hr].
  split; [symmetry; apply take_drop_s|].
  split; [rewrite take_length; lia|]. split; [rewrite drop_length; lia|].
  split; [assumption|]. split; [assumption|].
  split; [exists n; exact Hn|].
  unfold objectDirs in Hdirs.
  split; [apply Hdirs, list_elem_of_here|].
  split; [apply Hdirs, list_elem_of_further, list_elem_of_here|].
  apply Hdirs. do 2 apply list_elem_of_further. apply list_elem_of_here.
Qed.

(** ** Ids as a function of the contents *)

(** The id of the blob that a path gives, and the id of the tree that a
    directory gives, computed from the working tree alone. *)
Definition blobId (n : node) : string :=
  match os_Open n with
  | Some (File _ data) => GetSha (encode "blob" data)
  | _ => EmptyString
  end.

Definition lessEntry (a b : TreeFile * string) : bool := String.ltb (Name a.1) (Name b.1).

Fixpoint treeId (n : node) : string :=
  match n with
  | Dir _ files =>
      GetSha (encode "tree" (serialize (sort_Slice lessEntry
        (flat_map (fun file =>
           if String.eqb file.1 ".git" then []
           else [({| Name := file.1;
                     Mode := entryMode (Info file.1 file.2);
                     IsDir := fi_IsDir (Info file.1 file.2) |},
                  if fi_IsDir (Info file.1 file.2) then treeId file.2 else blobId file.2)])
           files))))
  | _ => EmptyString
  end.

Lemma sort_insert_map {A B : Type} (f : A -> B) (lessA : A -> A -> bool)
    (lessB : B -> B -> bool) (x : A) (l : list A) :
  (forall a b, lessB (f a) (f b) = lessA a b) ->
  map f (sort_insert lessA x l) = sort_insert lessB (f x) (map f l).
Proof.
  intros Hless. induction l as [|y l IH]; [reflexivity|].
  cbn [sort_insert map]. rewrite Hless. destruct (lessA y x); [|reflexivity].
  cbn [map]. now rewrite IH.
Qed.

(** Sorting by a key commutes with a map that keeps the key. *)
Lemma sort_Slice_map {A B : Type} (f : A -> B) (lessA : A -> A -> bool)
    (lessB : B -> B -> bool) (l : list A) :
  (forall a b, lessB (f a) (f b) = lessA a b) ->
  map f (sort_Slice lessA l) = sort_Slice lessB (map f l).
Proof.
  intros Hless. induction l as [|x l IH]; [reflexivity|].
  cbn [sort_Slice map]. now rewrite (sort_insert_map f lessA lessB), IH.
Qed.

(** Lines together with the digest each of them must give. *)
Definition linesWithIds (files : list (string * node))
  : list ((TreeFile * pathOps) * string) :=
  flat_map (fun file =>
    if String.eqb file.1 ".git" then []
    else [(({| Name := file.1;
               Mode := entryMode (Info file.1 file.2);
               IsDir := fi_IsDir (Info file.1 file.2) |},
            {| asTree := WriteTree file.2; asBlob := WriteBlob (Some file.2) |}),
           if fi_IsDir (Info file.1 file.2) then treeId file.2 else blobId file.2)])
    files.

Definition lessWithId (a b : (TreeFile * pathOps) * string) : bool :=
  String.ltb (Name a.1.1) (Name b.1.1).

Lemma linesWithIds_lines (files : list (string * node)) :
  map fst (linesWithIds files) = collectLines WriteTree files.
Proof.
  induction files as [|[name child] files IH]; [reflexivity|].
  unfold linesWithIds, collectLines in *. cbn [flat_map fst snd Info fi_Name].
  rewrite map_app, IH. now destruct (String.eqb name ".git").
Qed.

Lemma linesWithIds_entries (files : list (string * node)) :
  map (fun x : (TreeFile * pathOps) * string => (x.1.1, x.2)) (linesWithIds files)
  = flat_map (fun file =>
      if String.eqb file.1 ".git" then []
      else [({| Name := file.1;
                Mode := entryMode (Info file.1 file.2);
                IsDir := fi_IsDir (Info file.1 file.2) |},
             if fi_IsDir (Info file.1 file.2) then treeId file.2 else blobId file.2)])
      files.
Proof.
  induction files as [|[name child] files IH]; [reflexivity|].
  unfold linesWithIds in *. cbn [flat_map fst snd].
  rewrite map_app, IH. now destruct (String.eqb name ".git").
Qed.

Lemma WriteBlob_id (n : node) (g : gitdir) (r : string * gitdir) :
  WriteBlob (Some n) g = Done r -> r.1 = blobId n.
Proof.
  unfold WriteBlob, blobId. cbn [mbind option_bind].
  destruct (os_Open n) as [[perm data|perm files|target]|]; try discriminate.
  cbv zeta. destruct (WriteObject _ _ g) as [g1| |]; cbn [mbind outcome_bind];
    try discriminate.
  now intros [= <-].
Qed.

Lemma writeLines_ids (lines : list ((TreeFile * pathOps) * string)) (body : string)
    (g : gitdir) (body' : string) (g' : gitdir) :
  Forall (fun x => forall g0 r, lineOp x.1 g0 = Done r -> r.1 = x.2) lines ->
  writeLines (map fst lines) body g = Done (body', g') ->
  body' = body +:+ serialize (map (fun x => (x.1.1, x.2)) lines).
Proof.
  intros Hall. revert body g.
  induction Hall as [|[[line path] id] lines Hline _ IH]; intros body g H;
    cbn [map fst snd] in H.
  - cbn [writeLines] in H. injection H as <- _. cbn [map serialize].
    now rewrite app_nil_r_s.
  - rewrite writeLines_cons in H.
    destruct (lineOp (line, path) g) as [[hash g1]| |] eqn:Hop;
      cbn [mbind outcome_bind] in H; try discriminate.
    specialize (Hline _ _ Hop). cbn [fst snd] in Hline. subst hash.
    rewrite (IH _ _ H). cbn [map fst snd serialize]. unfold treeEntry.
    now rewrite !app_assoc_s.
Qed.

Lemma WriteTree_id (n : node) :
  forall g r, WriteTree n g = Done r -> r.1 = treeId n.
Proof.
  induction n as [perm data|perm files IH| |target IH] using node_induction;
    intros g r H; try discriminate.
  rewrite WriteTree_Dir in H.
  rewrite <- linesWithIds_lines in H.
  rewrite <- (sort_Slice_map fst lessWithId lessName) in H by reflexivity.
  destruct (writeLines _ "" g) as [[body g1]| |] eqn:Hw; cbn [mbind outcome_bind] in H;
    try discriminate.
  apply writeLines_ids in Hw.
  - unfold storeTree in H.
    destruct (WriteObject _ _ g1) as [g2| |]; cbn [mbind outcome_bind] in H;
      try discriminate.
    injection H as <-. cbn [fst treeId]. subst body.
    change ("" +:+ serialize ?x) with (serialize x).
    rewrite (sort_Slice_map (fun x : (TreeFile * pathOps) * string => (x.1.1, x.2))
               lessWithId lessEntry) by reflexivity.
    now rewrite linesWithIds_entries.
  - assert (Forall (fun x : (TreeFile * pathOps) * string =>
                      forall g0 r, lineOp x.1 g0 = Done r -> r.1 = x.2)
              (linesWithIds files)) as Hall.
    { clear -IH. induction IH as [|[name child] files Hchild _ IHfiles]; [constructor|].
      unfold linesWithIds in *. cbn [flat_map fst snd]. apply Forall_app.
      split; [|exact IHfiles].
      destruct (String.eqb name ".git"); [constructor|].
      constructor; [|constructor]. intros g0 r. unfold lineOp.
      cbn [fst snd IsDir asTree asBlob].
      destruct (fi_IsDir (Info name child)); [apply Hchild | apply WriteBlob_id]. }
    pose proof (sort_Slice_perm (fun x : (TreeFile * pathOps) * string => Name x.1.1)
                  (linesWithIds files)) as Hp.
    apply Forall_forall. intros x Hx. rewrite Forall_forall in Hall.
    apply Hall, (proj1 (elem_of_Permutation_proper x _ _ Hp)), Hx.
Qed.

(** X17. The id of a tree is a function of the directory's contents
    alone.  When [WriteTree] returns, in whatever store, its id is
    [treeId] of the directory: the digest of the records, sorted by
    name, of the entries other than [.git], each with the id of its
    blob or of its subtree.  So every subdirectory is recorded under
    the id that [WriteTree] gives for it alone, in any store. *)
Theorem WriteTree_id_is_treeId (cwd : node) (g : gitdir) (id : string) (g' : gitdir) :
  WriteTree cwd g = Done (id, g') ->
  id = treeId cwd /\
  forall g2 id2 g2', WriteTree cwd g2 = Done (id2, g2') -> id2 = id.
Proof.
  intros H. pose proof (WriteTree_id cwd _ _ H) as Hid. cbn [fst] in Hid.
  split; [assumption|].
  intros g2 id2 g2' H2. pose proof (WriteTree_id cwd _ _ H2) as Hid2. cbn [fst] in Hid2.
  congruence.
Qed.

End Program.

(** * The model on concrete inputs *)

Lemma Sample_digest_size (buf : string) : String.length (Sample.digest buf) = 20%nat.
Proof.
  unfold Sample.digest, Sample.pad20.
  rewrite take_length, length_app_s.
  change (String.length "00000000000000000000") with 20%nat. lia.
Qed.

Lemma Sample_round_trip (b : string) :
  Sample.inflate (Sample.deflate b) = Some (b, true).
Proof. reflexivity. Qed.

(** A repository right after [init]. *)
Definition freshRepo : gitdir := InitCmd ∅.

Lemma freshRepo_files (p : string) : isFile freshRepo p = true -> p = ".git/HEAD".
Proof.
  assert (freshRepo =
          <[".git/HEAD" := GFile ("ref: refs/heads/master" +:+ NEWLINE)]>
            (<[".git/refs" := GDir]> (<[".git/objects" := GDir]> (<[".git" := GDir]> ∅))))
    as -> by (vm_compute; reflexivity).
  unfold isFile. destruct (decide (p = ".git/HEAD")) as [|Hne]; [auto|].
  rewrite lookup_insert_ne by congruence.
  repeat (rewrite lookup_insert; case_decide; [discriminate|]).
  rewrite lookup_empty. discriminate.
Qed.

Lemma freshRepo_ready : gitReady freshRepo.
Proof.
  intros p Hp. destruct (isFile freshRepo p) eqn:E; [|reflexivity].
  apply freshRepo_files in E as ->.
  destruct Hp as [H|[H|[_ H]]]; discriminate.
Qed.

Definition hello : string := "hello" +:+ NEWLINE.

(** C1 on the file of the spec's scenario A, in a fresh repository. *)
Lemma WriteBlob_canonical_digest_hello :
  storeReady (objectName Sample.digest "blob" hello) freshRepo /\
  exists g', WriteBlob Sample.digest Sample.deflate (Some (File 420 hello)) freshRepo
             = Done (Sample.digest (encode "blob" hello), g').
Proof.
  assert (storeReady (objectName Sample.digest "blob" hello) freshRepo)
    as H by (vm_compute; reflexivity).
  split; [exact H|].
  exact (proj1 (WriteBlob_canonical_digest Sample.digest Sample.deflate
                  Sample_digest_size 420 hello freshRepo) H).
Defined.



(** C3 on the same file: stored twice, one object. *)
Lemma WriteObject_idempotent_hello :
  exists id g1,
    WriteBlob Sample.digest Sample.deflate (Some (File 420 hello)) freshRepo = Done (id, g1) /\
    WriteBlob Sample.digest Sample.deflate (Some (File 420 hello)) g1 = Done (id, g1) /\
    WriteObject Sample.deflate (EncodeToString id) "other bytes" g1 = Done g1.
Proof.
  destruct (WriteObject_idempotent Sample.digest Sample.deflate Sample_digest_size)
    as [Hblob Hobject].
  destruct (Hblob 420%N hello freshRepo) as (id & g1 & H1 & H2);
    [vm_compute; reflexivity|].
  exists id, g1. split; [exact H1|]. split; [exact H2|].
  rewrite WriteBlob_File in H1.
  destruct (WriteObject Sample.deflate
              (EncodeToString (GetSha Sample.digest (encode "blob" hello)))
              (encode "blob" hello) freshRepo) as [g1'| |] eqn:Hw; try discriminate.
  injection H1 as <- <-. exact (Hobject _ _ _ _ Hw "other bytes").
Defined.

(** The directory of the spec's scenario B, as enumerated in two
    orders. *)
Definition scenarioB : list (string * node) :=
  [("sub", Dir 493 [("b.txt", File 420 "b")]); ("a.txt", File 420 "a")].

Definition scenarioB' : list (string * node) :=
  [("a.txt", File 420 "a"); ("sub", Dir 493 [("b.txt", File 420 "b")])].

(** C4 on that directory. *)
Lemma WriteTree_order_independent_scenarioB :
  WriteTree Sample.digest Sample.deflate (Dir 493 scenarioB) freshRepo
    = WriteTree Sample.digest Sample.deflate (Dir 493 scenarioB') freshRepo
  /\ (forall id g',
      WriteTree Sample.digest Sample.deflate (Dir 493 scenarioB) freshRepo = Done (id, g') ->
      exists entries,
        id = Sample.digest (encode "tree" (serialize entries)) /\
        ascending (map (fun e => Name e.1) entries) /\
        map (fun e => Name e.1) entries ≡ₚ filter (fun n => n <> ".git") (map fst scenarioB))
  /\ exists id g',
      WriteTree Sample.digest Sample.deflate (Dir 493 scenarioB) freshRepo = Done (id, g').
Proof.
  destruct (WriteTree_order_independent Sample.digest Sample.deflate Sample_digest_size
              493 scenarioB scenarioB' freshRepo) as (Hsame & Hsorted & Hdone).
  - apply perm_swap.
  - apply (bool_decide_unpack _). vm_compute. exact I.
  - split; [exact Hsame|]. split; [exact Hsorted|].
    apply Hdone; [apply freshRepo_ready | reflexivity].
Defined.

(** The pair a command returned, for stating what it did on a concrete
    input. *)
Definition isDone {A} (o : outcome A) : bool :=
  match o with Done _ => true | _ => false end.

Definition returned {A B} (o : outcome (A * B)) (a : A) (b : B) : A * B :=
  match o with Done r => r | _ => (a, b) end.

Lemma returned_Done {A B} (o : outcome (A * B)) (a : A) (b : B) :
  isDone o = true -> o = Done ((returned o a b).1, (returned o a b).2).
Proof. destruct o as [[x y]| |]; [reflexivity|discriminate..]. Qed.

(** The tree of scenario B is written, with [a.txt] before [sub]. *)
Lemma WriteTree_scenarioB_listing :
  exists id g',
    WriteTree Sample.digest Sample.deflate (Dir 493 scenarioB) freshRepo = Done (id, g') /\
    LSTreeCmd Sample.inflate (EncodeToString id) g' = (["a.txt"; "sub"], Done tt).
Proof.
  pose proof (returned_Done
                (WriteTree Sample.digest Sample.deflate (Dir 493 scenarioB) freshRepo)
                EmptyString ∅ ltac:(vm_compute; reflexivity)) as H.
  eexists _, _. split; [exact H|]. vm_compute. reflexivity.
Qed.

(** C5 on an id that names nothing in a fresh repository. *)
Lemma CatFile_failures_fresh :
  2 <= len "aa00000000000000000000000000000000000000" /\
  CatFile Sample.inflate "aa00000000000000000000000000000000000000" true freshRepo
    = Exit "Could not find Git object".
Proof.
  assert (2 <= len "aa00000000000000000000000000000000000000") as H
      by (vm_compute; discriminate).
  split; [exact H|].
  apply (proj1 (CatFile_failures Sample.inflate
                  "aa00000000000000000000000000000000000000" freshRepo H)).
  vm_compute; reflexivity.
Defined.

(** An object whose header names no kind and no length. *)
Definition oddObject : gitdir :=
  {[ ".git/objects/aa/00000000000000000000000000000000000000"
       := GFile (Sample.deflate ("blub x" +:+ NULL_SEP +:+ "data")) ]}.

(** Against C5 as stated: the header ["blub x"] has an unknown kind and
    a length that is no number, and [CatFile] prints the payload. *)
Lemma CatFile_accepts_any_header :
  headerOk "blub x" = false /\
  CatFile Sample.inflate "aa00000000000000000000000000000000000000" true oddObject
    = Done "data".
Proof. split; vm_compute; reflexivity. Qed.

(** Against C6 as stated: a file with permissions 0744 has the owner's
    execute bit, and gets the mode of a regular file. *)
Lemma entryMode_owner_execute_only :
  N.land 484 73 = 64%N /\
  entryMode (Info "run.sh" (File 484 "")) = 100644.
Proof. split; reflexivity. Qed.

(** A tree object whose only record stops five bytes into its digest. *)
Definition truncatedTree : gitdir :=
  {[ ".git/objects/bb/00000000000000000000000000000000000000"
       := GFile (Sample.deflate (encode "tree" ("100644 a.txt" +:+ NULL_SEP +:+ "12345"))) ]}.

(** C7 at a truncated payload: [ls-tree] prints the name and then
    panics on [body[20:]]; no decode error is reported. *)
Theorem LSTreeCmd_truncated_panics :
  LSTreeCmd Sample.inflate "bb00000000000000000000000000000000000000" truncatedTree
    = (["a.txt"], Panic "slice bounds out of range").
Proof. vm_compute. reflexivity. Qed.

(** Against C8 as stated: a message that ends with a newline is followed
    by a second one. *)
Lemma CommitTree_doubles_newline :
  HasSuffix ("hi" +:+ NEWLINE) NEWLINE = true /\
  HasSuffix (commitBody 0 "T" "" ("hi" +:+ NEWLINE)) ("hi" +:+ NEWLINE +:+ NEWLINE) = true /\
  String.eqb (commitBody 0 "T" "" ("hi" +:+ NEWLINE))
             (commitHead 0 "T" "" +:+ terminated ("hi" +:+ NEWLINE)) = false.
Proof. repeat split; vm_compute; reflexivity. Qed.

(** Against C9 as stated: the same tree, parent and message give two
    payloads and two ids when the clock has moved on by a second. *)
Lemma CommitTree_differs_with_clock :
  String.eqb (commitBody 0 "T" "P" "m") (commitBody 1 "T" "P" "m") = false /\
  exists id0 g0 id1 g1,
    CommitTree Sample.digest Sample.deflate 0 "T" "P" "m" freshRepo = Done (id0, g0) /\
    CommitTree Sample.digest Sample.deflate 1 "T" "P" "m" freshRepo = Done (id1, g1) /\
    String.eqb id0 id1 = false.
Proof.
  split; [vm_compute; reflexivity|].
  eexists _, _, _, _. repeat split; vm_compute; reflexivity.
Qed.

(** C10 in a fresh repository holding one file: [refs/heads/master]
    does not exist yet, and the first [commit] panics. *)
Lemma Commit_panics_without_ref_fresh :
  (ReadFile ".git/refs/heads/master" freshRepo).2 = true /\
  Commit Sample.digest Sample.deflate 1700000000 (Dir 493 [("a.txt", File 420 "a")])
         "first" freshRepo
    = Panic "slice bounds out of range".
Proof.
  split; [vm_compute; reflexivity|].
  apply (Commit_panics_without_ref Sample.digest Sample.deflate Sample_digest_size
           1700000000 493 [("a.txt", File 420 "a")] "first" freshRepo
           ("ref: refs/heads/master" +:+ NEWLINE) "refs/heads/master").
  - apply freshRepo_ready.
  - reflexivity.
  - vm_compute; reflexivity.
  - vm_compute; reflexivity.
  - vm_compute; reflexivity.
  - vm_compute; reflexivity.
Defined.

(** So the first [commit] in any fresh repository panics, whatever the
    working tree holds. *)
Lemma Commit_panics_in_fresh_repo (now : Z) (perm : N) (files : list (string * node))
    (msg : string) :
  treeReadable (Dir perm files) = true ->
  Commit Sample.digest Sample.deflate now (Dir perm files) msg freshRepo
    = Panic "slice bounds out of range".
Proof.
  intros Hread.
  apply (Commit_panics_without_ref Sample.digest Sample.deflate Sample_digest_size
           now perm files msg freshRepo
           ("ref: refs/heads/master" +:+ NEWLINE) "refs/heads/master");
    try assumption; try apply freshRepo_ready; vm_compute; reflexivity.
Qed.

(** * Further properties on concrete inputs *)

(** A repository whose branch has a commit: [refs/heads/master] holds an
    id and a newline. *)
Definition masterSha : string := "aa00000000000000000000000000000000000000".

Definition repoWithCommit : gitdir :=
  <[".git/refs/heads/master" := GFile (masterSha +:+ NEWLINE)]> freshRepo.

Lemma repoWithCommit_ready : gitReady repoWithCommit.
Proof.
  intros p Hp. unfold isFile, repoWithCommit.
  rewrite lookup_insert. case_decide as Heq.
  - subst p. destruct Hp as [H|[H|[_ H]]]; discriminate.
  - exact (freshRepo_ready p Hp).
Qed.

Lemma empty_ready : gitReady ∅.
Proof. intros p _. unfold isFile. now rewrite lookup_empty. Qed.

(** X1 on the directory of scenario B. *)
Lemma WriteTree_only_adds_scenarioB :
  exists id g',
    WriteTree Sample.digest Sample.deflate (Dir 493 scenarioB) freshRepo = Done (id, g') /\
    (forall p n, freshRepo !! p = Some n -> g' !! p = Some n) /\
    (forall p d, freshRepo !! p = None -> g' !! p = Some (GFile d) ->
                 String.prefix ".git/objects/" p = true) /\
    String.length id = 20%nat.
Proof.
  pose proof (returned_Done
                (WriteTree Sample.digest Sample.deflate (Dir 493 scenarioB) freshRepo)
                EmptyString ∅ ltac:(vm_compute; reflexivity)) as H.
  eexists _, _. split; [exact H|].
  exact (WriteTree_only_adds Sample.digest Sample.deflate Sample_digest_size _ _ _ _ H).
Defined.

(** X2 on the same directory. *)
Lemma WriteTree_idempotent_scenarioB :
  exists id g1,
    WriteTree Sample.digest Sample.deflate (Dir 493 scenarioB) freshRepo = Done (id, g1) /\
    WriteTree Sample.digest Sample.deflate (Dir 493 scenarioB) g1 = Done (id, g1).
Proof.
  pose proof (returned_Done
                (WriteTree Sample.digest Sample.deflate (Dir 493 scenarioB) freshRepo)
                EmptyString ∅ ltac:(vm_compute; reflexivity)) as H.
  eexists _, _. split; [exact H|].
  exact (WriteTree_idempotent Sample.digest Sample.deflate Sample_digest_size _ _ _ _ H).
Defined.

(** A directory with a link that leads nowhere. *)
Definition brokenDir : list (string * node) :=
  [("a.txt", File 420 "a"); ("gone", Symlink None)].

(** X3 on the directory of scenario B, and on a directory that cannot
    be read. *)
Lemma WriteTree_returns_iff_readable_scenarioB :
  gitReady freshRepo /\
  ((exists id g',
       WriteTree Sample.digest Sample.deflate (Dir 493 scenarioB) freshRepo = Done (id, g'))
   <-> treeReadable (Dir 493 scenarioB) = true) /\
  ((exists id g',
       WriteTree Sample.digest Sample.deflate (Dir 493 brokenDir) freshRepo = Done (id, g'))
   <-> treeReadable (Dir 493 brokenDir) = true).
Proof.
  split; [exact freshRepo_ready|]. split.
  - exact (WriteTree_returns_iff_readable Sample.digest Sample.deflate Sample_digest_size
             493 scenarioB freshRepo freshRepo_ready).
  - exact (WriteTree_returns_iff_readable Sample.digest Sample.deflate Sample_digest_size
             493 brokenDir freshRepo freshRepo_ready).
Defined.

Lemma WriteTree_brokenDir_exits :
  treeReadable (Dir 493 brokenDir) = false /\
  WriteTree Sample.digest Sample.deflate (Dir 493 brokenDir) freshRepo
    = Exit "Error opening file".
Proof. split; vm_compute; reflexivity. Qed.

(** X5 on a file and a link to a file of the same bytes. *)
Lemma WriteBlob_same_contents_link :
  exists id g1,
    WriteBlob Sample.digest Sample.deflate (Some (File 420 hello)) freshRepo = Done (id, g1) /\
    WriteBlob Sample.digest Sample.deflate (Some (Symlink (Some (File 493 hello)))) g1
      = Done (id, g1).
Proof.
  pose proof (returned_Done
                (WriteBlob Sample.digest Sample.deflate (Some (File 420 hello)) freshRepo)
                EmptyString ∅ ltac:(vm_compute; reflexivity)) as H.
  eexists _, _. split; [exact H|].
  exact (WriteBlob_same_contents Sample.digest Sample.deflate
           (File 420 hello) (Symlink (Some (File 493 hello))) 420 493 hello
           freshRepo _ _ eq_refl eq_refl H).
Defined.

(** A store that holds the blob of [hello], and one that holds bytes
    without any NUL. *)
Definition helloBlob : gitdir :=
  {[ ".git/objects/cc/00000000000000000000000000000000000000"
       := GFile (Sample.deflate (encode "blob" hello)) ]}.

Definition noNulObject : gitdir :=
  {[ ".git/objects/cc/00000000000000000000000000000000000000" := GFile "blob 3abc" ]}.

(** X7 on the blob of [hello]: [ls-tree] prints an empty line and
    panics. *)
Lemma LSTreeCmd_any_kind_hello :
  LSTreeCmd Sample.inflate "cc00000000000000000000000000000000000000" helloBlob
    = ([""], Panic "slice bounds out of range").
Proof.
  exact (LSTreeCmd_any_kind Sample.deflate Sample.inflate
           "cc00000000000000000000000000000000000000" "blob" hello helloBlob
           Sample_round_trip ltac:(vm_compute; discriminate) eq_refl
           ltac:(vm_compute; reflexivity) eq_refl).
Defined.

(** X8 on bytes without NUL. *)
Lemma no_NUL_CatFile_LSTreeCmd_abc :
  CatFile Sample.inflate "cc00000000000000000000000000000000000000" true noNulObject
    = Exit "Error reading Git object" /\
  LSTreeCmd Sample.inflate "cc00000000000000000000000000000000000000" noNulObject
    = ([], Done tt).
Proof.
  exact (no_NUL_CatFile_LSTreeCmd Sample.inflate
           "cc00000000000000000000000000000000000000" "blob 3abc" "blob 3abc" true
           noNulObject ltac:(vm_compute; discriminate) ltac:(vm_compute; reflexivity)
           eq_refl eq_refl).
Defined.

(** X9 on the id [a]. *)
Lemma short_id_panics_a :
  CatFile Sample.inflate "a" true freshRepo = Panic "slice bounds out of range" /\
  LSTreeCmd Sample.inflate "a" freshRepo = ([], Panic "slice bounds out of range") /\
  WriteObject Sample.deflate "a" "bytes" freshRepo = Panic "slice bounds out of range".
Proof.
  exact (short_id_panics Sample.deflate Sample.inflate "a" "bytes" true freshRepo
           ltac:(vm_compute; reflexivity)).
Defined.

(** The payload of the tree of scenario B, and the store once its
    entries are written. *)
Definition linesB : outcome (string * gitdir) :=
  writeLines
    (sort_Slice lessName
       (collectLines Sample.digest Sample.deflate
          (WriteTree Sample.digest Sample.deflate) scenarioB)) "" freshRepo.

Definition payloadB : string := (returned linesB EmptyString ∅).1.

Definition storeB : gitdir := (returned linesB EmptyString ∅).2.

Lemma scenarioB_lines : linesB = Done (payloadB, storeB).
Proof. apply returned_Done. vm_compute. reflexivity. Qed.

Lemma storeB_ready : storeReady (objectName Sample.digest "tree" payloadB) storeB.
Proof. vm_compute. reflexivity. Qed.

Lemma storeB_free :
  slotFits Sample.deflate (objectName Sample.digest "tree" payloadB)
    (encode "tree" payloadB) storeB.
Proof. left. vm_compute. reflexivity. Qed.

Lemma scenarioB_names :
  NoDup (map fst scenarioB) /\ Forall (fun file => has NUL file.1 = false) scenarioB.
Proof.
  split; [apply (bool_decide_unpack _); vm_compute; exact I | repeat constructor].
Qed.

(** X10 on scenario B. *)
Lemma LSTreeCmd_after_WriteTree_scenarioB :
  exists g' names,
    WriteTree Sample.digest Sample.deflate (Dir 493 scenarioB) freshRepo
      = Done (Sample.digest (encode "tree" payloadB), g') /\
    LSTreeCmd Sample.inflate (EncodeToString (Sample.digest (encode "tree" payloadB))) g'
      = (names, Done tt) /\
    ascending names /\
    names ≡ₚ filter (fun n => n <> ".git") (map fst scenarioB).
Proof.
  exact (LSTreeCmd_after_WriteTree Sample.digest Sample.deflate Sample.inflate
           Sample_digest_size 493 scenarioB freshRepo payloadB storeB Sample_round_trip
           (proj1 scenarioB_names) (proj2 scenarioB_names)
           scenarioB_lines storeB_ready storeB_free).
Defined.

(** X11 on a tree id and a parent id that name nothing. *)
Lemma CommitTree_accepts_any_ids_fresh :
  gitReady freshRepo /\
  exists g',
    CommitTree Sample.digest Sample.deflate 1700000000 "no such tree" "" "msg" freshRepo
      = Done (Sample.digest
                (encode "commit" (commitBody 1700000000 "no such tree" "" "msg")), g') /\
    gitReady g' /\ extends freshRepo g'.
Proof.
  split; [exact freshRepo_ready|].
  exact (CommitTree_accepts_any_ids Sample.digest Sample.deflate Sample_digest_size
           1700000000 "no such tree" "" "msg" freshRepo freshRepo_ready).
Defined.

(** X12 on a repository whose branch has a commit. *)
Lemma Commit_leaves_refs_master :
  exists id g',
    Commit Sample.digest Sample.deflate 1700000000 (Dir 493 scenarioB) "msg" repoWithCommit
      = Done (id, g') /\
    extends repoWithCommit g' /\
    (forall path data,
        ReadFile path repoWithCommit = (data, false) -> ReadFile path g' = (data, false)) /\
    Commit Sample.digest Sample.deflate 1700000000 (Dir 493 scenarioB) "msg" g'
      = Done (id, g').
Proof.
  pose proof (returned_Done
                (Commit Sample.digest Sample.deflate 1700000000 (Dir 493 scenarioB) "msg"
                   repoWithCommit)
                EmptyString ∅ ltac:(vm_compute; reflexivity)) as H.
  eexists _, _. split; [exact H|].
  exact (Commit_leaves_refs Sample.digest Sample.deflate Sample_digest_size _ _ _ _ _ _ H).
Defined.

(** X13 on the same repository: the parent is the id in the ref file. *)
Lemma Commit_with_parent_master :
  exists tree g1 g',
    WriteTree Sample.digest Sample.deflate (Dir 493 scenarioB) repoWithCommit
      = Done (tree, g1) /\
    Commit Sample.digest Sample.deflate 1700000000 (Dir 493 scenarioB) "msg" repoWithCommit
      = Done (Sample.digest
                (encode "commit"
                   (commitBody 1700000000 (EncodeToString tree) masterSha "msg")), g') /\
    ReadFile ".git/refs/heads/master" g' = (masterSha +:+ NEWLINE, false).
Proof.
  exact (Commit_with_parent Sample.digest Sample.deflate Sample_digest_size
           1700000000 493 scenarioB "msg" repoWithCommit
           ("ref: refs/heads/master" +:+ NEWLINE) "refs/heads/master"
           (masterSha +:+ NEWLINE)
           repoWithCommit_ready eq_refl
           ltac:(vm_compute; reflexivity) ltac:(vm_compute; reflexivity)
           ltac:(vm_compute; reflexivity) ltac:(discriminate)).
Defined.

(** Stores with a broken [HEAD]: one of four bytes, and one that names
    a ref file which is empty. *)
Definition shortHead : gitdir := <[".git/HEAD" := GFile "ref:"]> freshRepo.

Definition emptyRef : gitdir := <[".git/refs/heads/master" := GFile ""]> freshRepo.

Lemma shortHead_ready : gitReady shortHead.
Proof.
  intros p Hp. unfold isFile, shortHead.
  rewrite lookup_insert. case_decide as Heq.
  - subst p. destruct Hp as [H|[H|[_ H]]]; discriminate.
  - exact (freshRepo_ready p Hp).
Qed.

Lemma emptyRef_ready : gitReady emptyRef.
Proof.
  intros p Hp. unfold isFile, emptyRef.
  rewrite lookup_insert. case_decide as Heq.
  - subst p. destruct Hp as [H|[H|[_ H]]]; discriminate.
  - exact (freshRepo_ready p Hp).
Qed.

(** X14 on a directory without [.git/HEAD], on a short [HEAD] and on an
    empty ref file. *)
Lemma Commit_broken_HEAD_cases :
  Commit Sample.digest Sample.deflate 1700000000 (Dir 493 scenarioB) "msg" ∅
    = Exit "Error reading HEAD file" /\
  Commit Sample.digest Sample.deflate 1700000000 (Dir 493 scenarioB) "msg" shortHead
    = Panic "slice bounds out of range" /\
  Commit Sample.digest Sample.deflate 1700000000 (Dir 493 scenarioB) "msg" emptyRef
    = Panic "slice bounds out of range".
Proof.
  split; [|split].
  - exact (proj1 (Commit_broken_HEAD Sample.digest Sample.deflate Sample_digest_size
                    1700000000 493 scenarioB "msg" ∅ empty_ready eq_refl)
             ltac:(vm_compute; reflexivity)).
  - exact (proj1 (proj2 (Commit_broken_HEAD Sample.digest Sample.deflate Sample_digest_size
                           1700000000 493 scenarioB "msg" shortHead shortHead_ready eq_refl))
             "ref:" ltac:(vm_compute; reflexivity) ltac:(vm_compute; reflexivity)).
  - exact (proj2 (proj2 (Commit_broken_HEAD Sample.digest Sample.deflate Sample_digest_size
                           1700000000 493 scenarioB "msg" emptyRef emptyRef_ready eq_refl))
             ("ref: refs/heads/master" +:+ NEWLINE) "refs/heads/master"
             ltac:(vm_compute; reflexivity) ltac:(vm_compute; reflexivity)
             ltac:(vm_compute; reflexivity)).
Defined.

(** A repository on the branch [dev], with a commit on [master]. *)
Definition repoOnDev : gitdir :=
  <[".git/HEAD" := GFile ("ref: refs/heads/dev" +:+ NEWLINE)]> repoWithCommit.

(** X15 on that repository: [init] keeps the ref file and puts [HEAD]
    back on [master]. *)
Lemma InitCmd_keeps_repository_repoOnDev :
  isFile repoOnDev ".git" = false /\
  (forall p n, p <> ".git/HEAD" -> repoOnDev !! p = Some n -> InitCmd repoOnDev !! p = Some n)
  /\ InitCmd repoOnDev !! ".git" = Some GDir
  /\ (isFile repoOnDev ".git/objects" = false ->
      InitCmd repoOnDev !! ".git/objects" = Some GDir)
  /\ (isFile repoOnDev ".git/refs" = false -> InitCmd repoOnDev !! ".git/refs" = Some GDir)
  /\ (repoOnDev !! ".git/HEAD" <> Some GDir ->
      ReadFile ".git/HEAD" (InitCmd repoOnDev)
        = ("ref: refs/heads/master" +:+ NEWLINE, false)).
Proof.
  split; [vm_compute; reflexivity|].
  exact (InitCmd_keeps_repository repoOnDev ltac:(vm_compute; reflexivity)).
Defined.

(** X16 on the tree of scenario B. *)
Lemma object_layout_scenarioB :
  exists id g',
    WriteTree Sample.digest Sample.deflate (Dir 493 scenarioB) freshRepo = Done (id, g') /\
    exists aa rest,
      EncodeToString id = aa +:+ rest /\
      String.length aa = 2%nat /\ String.length rest = 38%nat /\
      allHex aa = true /\ allHex rest = true /\
      (exists n, g' !! (".git/objects/" +:+ aa +:+ "/" +:+ rest) = Some n) /\
      g' !! ".git" = Some GDir /\ g' !! ".git/objects" = Some GDir /\
      g' !! (".git/objects/" +:+ aa) = Some GDir.
Proof.
  pose proof (returned_Done
                (WriteTree Sample.digest Sample.deflate (Dir 493 scenarioB) freshRepo)
                EmptyString ∅ ltac:(vm_compute; reflexivity)) as H.
  eexists _, _. split; [exact H|].
  exact (object_layout Sample.digest Sample.deflate Sample_digest_size
           None (Dir 493 scenarioB) 0 "" "" "" freshRepo _ _ (or_intror (or_introl H))).
Defined.

(** X17 on the directory of scenario B. *)
Lemma WriteTree_id_is_treeId_scenarioB :
  exists id g',
    WriteTree Sample.digest Sample.deflate (Dir 493 scenarioB) freshRepo = Done (id, g') /\
    id = treeId Sample.digest (Dir 493 scenarioB) /\
    forall g2 id2 g2',
      WriteTree Sample.digest Sample.deflate (Dir 493 scenarioB) g2 = Done (id2, g2') ->
      id2 = id.
Proof.
  pose proof (returned_Done
                (WriteTree Sample.digest Sample.deflate (Dir 493 scenarioB) freshRepo)
                EmptyString ∅ ltac:(vm_compute; reflexivity)) as H.
  eexists _, _. split; [exact H|].
  exact (WriteTree_id_is_treeId Sample.digest Sample.deflate _ _ _ _ H).
Defined.
